(** * Synchronized video streaming: playback clock, command handlers,
      byte-range media endpoint and client reconciler.

    Sources embedded here:
    - [server/src/stream.gateway.ts]    (module [Gateway])
    - [server/src/stream.controller.ts] (module [Controller])
    - the [useStreamPlayer] hook of the client (module [Client])

    Numbers.  A JavaScript number is modelled by the type [number]: the three
    special values NaN, +Infinity, -Infinity, or a finite value carried as a
    canonical rational.  Every finite double is a rational, and arithmetic on
    finite values is taken exact: rounding, overflow and the sign of zero are
    abstracted.  Leibniz equality on [number] stands for "same value".

    Wall-clock readings ([Date.now()]) are integral milliseconds and are
    modelled in [Z]. *)

From Stdlib Require Import ZArith QArith Qcanon Qcabs List String Ascii Bool Lia.
From Stdlib Require Import DecimalString DecimalZ.
Import ListNotations.

Local Open Scope Z_scope.

(** ** JavaScript numbers *)

Module JS.

Inductive number : Type :=
| NaN
| PosInf
| NegInf
| Fin (q : Qc).

(** Values of type [unknown] as they arrive in a message body. *)
#[warnings="-register-all"] Inductive value : Type :=
| VUndefined
| VNull
| VBool (b : bool)
| VNum (n : number)
| VStr (s : string)
| VObj (fields : list (string * value)).

Definition of_Z (z : Z) : number := Fin (Q2Qc (inject_Z z)).

Definition zero : number := of_Z 0.

(** [Number.isFinite] *)
Definition Number_isFinite (n : number) : bool :=
  match n with
  | Fin _ => true
  | _ => false
  end.

(** [function isFiniteNumber(value: unknown): value is number] *)
Definition isFiniteNumber (v : value) : bool :=
  match v with
  | VNum n => Number_isFinite n
  | _ => false
  end.

(** The narrowing of a [value] already tested to be a number. *)
Definition as_number (v : value) : number :=
  match v with
  | VNum n => n
  | _ => NaN
  end.

Definition Qc_eqb (x y : Qc) : bool := Qeq_bool x y.
Definition Qc_leb (x y : Qc) : bool := Qle_bool x y.
Definition Qc_ltb (x y : Qc) : bool := negb (Qle_bool y x).

(** [Math.max(a, b)]: NaN if either argument is NaN, else the larger. *)
Definition Math_max (a b : number) : number :=
  match a, b with
  | NaN, _ | _, NaN => NaN
  | PosInf, _ | _, PosInf => PosInf
  | NegInf, x | x, NegInf => x
  | Fin x, Fin y => if Qc_leb x y then Fin y else Fin x
  end.

(** [Math.min(a, b)] *)
Definition Math_min (a b : number) : number :=
  match a, b with
  | NaN, _ | _, NaN => NaN
  | NegInf, _ | _, NegInf => NegInf
  | PosInf, x | x, PosInf => x
  | Fin x, Fin y => if Qc_leb x y then Fin x else Fin y
  end.

(** [a + b] *)
Definition add (a b : number) : number :=
  match a, b with
  | NaN, _ | _, NaN => NaN
  | PosInf, NegInf | NegInf, PosInf => NaN
  | PosInf, _ | _, PosInf => PosInf
  | NegInf, _ | _, NegInf => NegInf
  | Fin x, Fin y => Fin (x + y)%Qc
  end.

(** [- a] *)
Definition neg (a : number) : number :=
  match a with
  | NaN => NaN
  | PosInf => NegInf
  | NegInf => PosInf
  | Fin x => Fin (- x)%Qc
  end.

(** [a - b] *)
Definition sub (a b : number) : number := add a (neg b).

(** [a / b].  With the sign of zero abstracted, a finite non-zero value over
    zero is given the sign of the numerator. *)
Definition div (a b : number) : number :=
  match a, b with
  | NaN, _ | _, NaN => NaN
  | (PosInf | NegInf), (PosInf | NegInf) => NaN
  | PosInf, Fin y => if Qc_ltb y 0%Qc then NegInf else PosInf
  | NegInf, Fin y => if Qc_ltb y 0%Qc then PosInf else NegInf
  | Fin _, (PosInf | NegInf) => Fin 0%Qc
  | Fin x, Fin y =>
      if Qc_eqb y 0%Qc then
        if Qc_eqb x 0%Qc then NaN
        else if Qc_ltb x 0%Qc then NegInf else PosInf
      else Fin (x / y)%Qc
  end.

(** [Math.abs(a)] *)
Definition Math_abs (a : number) : number :=
  match a with
  | NaN => NaN
  | PosInf | NegInf => PosInf
  | Fin x => if Qc_ltb x 0%Qc then Fin (- x)%Qc else Fin x
  end.

(** [a > b]: false as soon as one side is NaN. *)
Definition gt (a b : number) : bool :=
  match a, b with
  | NaN, _ | _, NaN => false
  | PosInf, PosInf => false
  | PosInf, _ => true
  | _, PosInf => false
  | NegInf, _ => false
  | Fin _, NegInf => true
  | Fin x, Fin y => Qc_ltb y x
  end.

(** Truthiness of a number: [0] and NaN are falsy. *)
Definition truthy (a : number) : bool :=
  match a with
  | NaN => false
  | Fin x => negb (Qc_eqb x 0%Qc)
  | _ => true
  end.

(** The larger of two rationals, and milliseconds read as seconds: the
    arithmetic in which the clock model is stated. *)
Definition Qcmax (x y : Qc) : Qc := if Qc_leb x y then y else x.
Definition Qcmin (x y : Qc) : Qc := if Qc_leb x y then x else y.
Definition seconds (ms : Z) : Qc := Q2Qc (ms # 1000).

(** A number that is finite and not negative. *)
Definition finite_nonneg (n : number) : Prop :=
  exists q : Qc, n = Fin q /\ (0 <= q)%Qc.

End JS.

(** ** The gateway: session state, clock model and command handlers *)

Module Gateway.
Import JS.

(** [type SyncState] *)
Record SyncState : Type := mkSyncState {
  ss_isPlaying : bool;
  ss_currentTime : number;
  ss_serverTimeMs : Z
}.

(** [type StreamState] *)
Record StreamState : Type := mkStreamState {
  isPlaying : bool;
  currentTime : number;
  updatedAtMs : Z
}.

Definition SYNC_BROADCAST_INTERVAL_MS : Z := 2000.

(** [private state: StreamState = { isPlaying: false, currentTime: 0,
    updatedAtMs: Date.now() }] *)
Definition initialState (startMs : Z) : StreamState :=
  mkStreamState false zero startMs.

(** Field assignments [this.state.f = v]. *)
Definition set_isPlaying (b : bool) (st : StreamState) : StreamState :=
  mkStreamState b (currentTime st) (updatedAtMs st).
Definition set_currentTime (t : number) (st : StreamState) : StreamState :=
  mkStreamState (isPlaying st) t (updatedAtMs st).
Definition set_updatedAtMs (ms : Z) (st : StreamState) : StreamState :=
  mkStreamState (isPlaying st) (currentTime st) ms.

(** [const baseTime] of [getEffectiveTime] *)
Definition baseTime (st : StreamState) : number :=
  if isFiniteNumber (VNum (currentTime st)) then currentTime st else zero.

(** [private getEffectiveTime(nowMs)] *)
Definition getEffectiveTime (st : StreamState) (nowMs : Z) : number :=
  let baseTime := baseTime st in
  if negb (isPlaying st) then Math_max zero baseTime
  else
    let elapsedSeconds :=
      Math_max zero (div (sub (of_Z nowMs) (of_Z (updatedAtMs st))) (of_Z 1000)) in
    Math_max zero (add baseTime elapsedSeconds).

(** [private commitTime(nowMs)] *)
Definition commitTime (st : StreamState) (nowMs : Z) : StreamState :=
  let st := set_currentTime (getEffectiveTime st nowMs) st in
  set_updatedAtMs nowMs st.

(** [private getSyncState(nowMs): SyncState] *)
Definition getSyncState (st : StreamState) (nowMs : Z) : SyncState :=
  mkSyncState (isPlaying st) (getEffectiveTime st nowMs) nowMs.

(** The socket.io server: the sockets connected to it.  [server.emit] sends
    one message to each of them, [client.emit] to one socket. *)
Definition SocketId : Type := nat.

Record Emission : Type := mkEmission {
  em_to : SocketId;
  em_event : string;
  em_payload : SyncState
}.

Definition Server : Type := list SocketId.

Definition server_emit (srv : Server) (ev : string) (p : SyncState) : list Emission :=
  map (fun s => mkEmission s ev p) srv.

Definition client_emit (client : SocketId) (ev : string) (p : SyncState) : list Emission :=
  [mkEmission client ev p].

(** The gateway object: [server] is undefined until the framework injects it. *)
Record StreamGateway : Type := mkGateway {
  server : option Server;
  state : StreamState
}.

Definition with_state (f : StreamState -> StreamState) (g : StreamGateway) : StreamGateway :=
  mkGateway (server g) (f (state g)).

(** [private broadcastSyncState()]; [nowMs] is the value [Date.now()] returns
    inside it. *)
Definition broadcastSyncState (g : StreamGateway) (nowMs : Z) : list Emission :=
  match server g with
  | None => []
  | Some srv => server_emit srv "syncState" (getSyncState (state g) nowMs)
  end.

(** [handlePlay(time: unknown)].  [nowMs] is the clock reading taken by the
    handler, [bcastMs] the one taken by [broadcastSyncState]. The call to
    [console.log] has no effect on the gateway and is left out. *)
Definition handlePlay (g : StreamGateway) (time : value) (nowMs bcastMs : Z)
  : StreamGateway * list Emission :=
  let g :=
    if isFiniteNumber time then
      let g := with_state (set_currentTime (Math_max zero (as_number time))) g in
      with_state (set_updatedAtMs nowMs) g
    else with_state (fun st => commitTime st nowMs) g in
  let g := with_state (set_isPlaying true) g in
  let g := with_state (set_updatedAtMs nowMs) g in
  (g, broadcastSyncState g bcastMs).

(** [handlePause(time: unknown)] *)
Definition handlePause (g : StreamGateway) (time : value) (nowMs bcastMs : Z)
  : StreamGateway * list Emission :=
  let g :=
    if isFiniteNumber time then
      let g := with_state (set_currentTime (Math_max zero (as_number time))) g in
      with_state (set_updatedAtMs nowMs) g
    else with_state (fun st => commitTime st nowMs) g in
  let g := with_state (set_isPlaying false) g in
  let g := with_state (set_updatedAtMs nowMs) g in
  (g, broadcastSyncState g bcastMs).

(** [handleSeek(time: unknown)] *)
Definition handleSeek (g : StreamGateway) (time : value) (nowMs bcastMs : Z)
  : StreamGateway * list Emission :=
  if negb (isFiniteNumber time) then (g, [])
  else
    let g := with_state (set_currentTime (Math_max zero (as_number time))) g in
    let g := with_state (set_updatedAtMs nowMs) g in
    (g, broadcastSyncState g bcastMs).

(** [handleSync(client: Socket)] *)
Definition handleSync (g : StreamGateway) (client : SocketId) (nowMs : Z)
  : StreamGateway * list Emission :=
  (g, client_emit client "syncState" (getSyncState (state g) nowMs)).

(** What can happen to a running gateway: the four subscribed messages, each
    with the clock readings taken while it is handled, and a tick of the
    broadcast interval set up by [afterInit]. *)
Inductive Event : Type :=
| EvPlay (time : value) (nowMs bcastMs : Z)
| EvPause (time : value) (nowMs bcastMs : Z)
| EvSeek (time : value) (nowMs bcastMs : Z)
| EvSync (client : SocketId) (nowMs : Z)
| EvTick (nowMs : Z).

Definition step (g : StreamGateway) (e : Event) : StreamGateway * list Emission :=
  match e with
  | EvPlay time nowMs bcastMs => handlePlay g time nowMs bcastMs
  | EvPause time nowMs bcastMs => handlePause g time nowMs bcastMs
  | EvSeek time nowMs bcastMs => handleSeek g time nowMs bcastMs
  | EvSync client nowMs => handleSync g client nowMs
  | EvTick nowMs => (g, broadcastSyncState g nowMs)
  end.

(** The gateway after a sequence of events, oldest first. *)
Fixpoint run (g : StreamGateway) (evs : list Event) : StreamGateway :=
  match evs with
  | [] => g
  | e :: evs => run (fst (step g e)) evs
  end.

(** A freshly constructed gateway. *)
Definition newGateway (srv : option Server) (startMs : Z) : StreamGateway :=
  mkGateway srv (initialState startMs).

(** A playing session whose checkpoint is later than the clock reading used
    below. *)
Definition skewed : StreamState := mkStreamState true (Fin (Q2Qc (21 # 2))) 5000.

(** The sockets a broadcast reaches. *)
Definition connectedPeers (g : StreamGateway) : list SocketId :=
  match server g with
  | Some srv => srv
  | None => []
  end.

End Gateway.

(** ** The media endpoint: [GET /video] with byte ranges *)

Module Controller.

Local Open Scope string_scope.
Local Open Scope Z_scope.

(** Strings are sequences of 8-bit code units, as header values are. *)

(** [String.prototype.startsWith] *)
Fixpoint startsWith (s pre : string) {struct pre} : bool :=
  match pre with
  | EmptyString => true
  | String a pre =>
      match s with
      | EmptyString => false
      | String b s => Ascii.eqb a b && startsWith s pre
      end
  end.

Fixpoint drop (n : nat) (s : string) : string :=
  match n, s with
  | O, _ => s
  | S n, String _ r => drop n r
  | S _, EmptyString => EmptyString
  end.

(** [String.prototype.replace] with a string pattern: the first occurrence of
    [pat], if any, is replaced by [rep]. *)
Fixpoint replace (s pat rep : string) : string :=
  if startsWith s pat then rep ++ drop (String.length pat) s
  else
    match s with
    | EmptyString => EmptyString
    | String c r => String c (replace r pat rep)
    end.

(** [String.prototype.split] with a separator of one character. *)
Fixpoint split (s : string) (sep : ascii) : list string :=
  match s with
  | EmptyString => [EmptyString]
  | String c r =>
      if Ascii.eqb c sep then EmptyString :: split r sep
      else
        match split r sep with
        | h :: t => String c h :: t
        | [] => [String c EmptyString]
        end
  end.

Definition code (c : ascii) : Z := Z.of_N (N_of_ascii c).

(** White space skipped by [parseInt]: TAB, LF, VT, FF, CR, SP and NBSP. *)
Definition isWhiteSpace (c : ascii) : bool :=
  let n := code c in
  ((9 <=? n) && (n <=? 13)) || (n =? 32) || (n =? 160).

Fixpoint trimStart (s : string) : string :=
  match s with
  | EmptyString => EmptyString
  | String c r => if isWhiteSpace c then trimStart r else s
  end.

Definition digit_of (c : ascii) : option Z :=
  let n := code c in
  if (48 <=? n) && (n <=? 57) then Some (n - 48) else None.

(** The value of the longest prefix of decimal digits; [acc] is [None] as
    long as no digit has been read. *)
Fixpoint digits_acc (s : string) (acc : option Z) : option Z :=
  match s with
  | EmptyString => acc
  | String c r =>
      match digit_of c with
      | Some d =>
          digits_acc r (Some (10 * match acc with Some a => a | None => 0 end + d))
      | None => acc
      end
  end.

(** [Number.parseInt(s, 10)].  The result is an integer or NaN; NaN is
    [None].  An [undefined] argument is first converted to the string
    ["undefined"]. *)
Definition parseInt (s : option string) : option Z :=
  let inputString :=
    match s with
    | Some s => s
    | None => "undefined"
    end in
  let str := trimStart inputString in
  let '(sign, str) :=
    match str with
    | String c r =>
        if Ascii.eqb c "-" then (-1, r)
        else if Ascii.eqb c "+" then (1, r)
        else (1, str)
    | EmptyString => (1, str)
    end in
  match digits_acc str None with
  | None => None
  | Some n => Some (sign * n)
  end.

(** [String(n)] for an integer [n], as template literals and numeric header
    values render it. *)
Definition toString (n : Z) : string :=
  DecimalString.NilZero.string_of_int (Z.to_int n).

Definition Header : Type := (string * string)%type.

Record Response : Type := mkResponse {
  status : Z;
  headers : list Header;
  body : list Byte.byte
}.

Record Request : Type := mkRequest {
  headers_range : option string
}.

(** The media file: [None] when [statSync] throws. *)
Definition File : Type := option (list Byte.byte).

Definition stat_size (content : list Byte.byte) : Z := Z.of_nat (List.length content).

(** [createReadStream(path).pipe(res)] *)
Definition readAll (content : list Byte.byte) : list Byte.byte := content.

(** [createReadStream(path, { start, end }).pipe(res)]: the bytes at offsets
    [start] to [end], both included. *)
Definition readRange (content : list Byte.byte) (start end_ : Z) : list Byte.byte :=
  firstn (Z.to_nat (end_ - start + 1)) (skipn (Z.to_nat start) content).

Definition header (name : string) (r : Response) : option string :=
  match find (fun h => String.eqb (fst h) name) (headers r) with
  | Some h => Some (snd h)
  | None => None
  end.

(** [const corsHeaders = { 'Access-Control-Allow-Origin': '*' }] *)
Definition corsHeaders : list Header :=
  [("Access-Control-Allow-Origin", "*")].

(** [obj[key]] on an object of strings. *)
Definition prop (obj : list Header) (key : string) : string :=
  match find (fun h => String.eqb (fst h) key) obj with
  | Some h => snd h
  | None => "undefined"
  end.

(** The 416 reply that three branches of the handler build in the same way:
    [res.setHeader('Access-Control-Allow-Origin', ...)] and then
    [res.status(416).setHeader('Content-Range', ...).end()]. *)
Definition rangeNotSatisfiable (size : Z) : Response :=
  mkResponse 416
    [("Access-Control-Allow-Origin", prop corsHeaders "Access-Control-Allow-Origin");
     ("Content-Range", "bytes */" ++ toString size)]
    [].

(** The end of [stream], from [const chunkSize] on: the 206 reply. *)
Definition partialContent (content : list Byte.byte) (start end_ : Z) : Response :=
  let size := stat_size content in
  let chunkSize := end_ - start + 1 in
  mkResponse 206
    (List.app corsHeaders
       [("Content-Range",
          "bytes " ++ toString start ++ "-" ++ toString end_ ++ "/" ++ toString size);
        ("Accept-Ranges", "bytes");
        ("Content-Length", toString chunkSize);
        ("Content-Type", "video/mp4")])
    (readRange content start end_).

(** The part of [stream] that follows the resolution of [start] and [end]:
    the check of the bounds, then the 206 reply. *)
Definition checkedRange (content : list Byte.byte) (start end_ : Z) : Response :=
  let size := stat_size content in
  if (start <? 0) || (end_ >=? size) || (start >? end_) then
    rangeNotSatisfiable size
  else partialContent content start end_.

(** [stream(req, res)].  Headers that the framework adds on its own to a
    reply (for [send]: type, length and tag of the text) are not listed. *)
Definition stream (file : File) (req : Request) : Response :=
  match file with
  | None =>
      mkResponse 404 [] (list_byte_of_string "Video file not found.")
  | Some content =>
      let size := stat_size content in
      let range := headers_range req in
      match range with
      | None | Some EmptyString =>
          mkResponse 200
            (List.app corsHeaders
               [("Content-Type", "video/mp4");
                ("Content-Length", toString size);
                ("Accept-Ranges", "bytes")])
            (readAll content)
      | Some range =>
          if negb (startsWith range "bytes=") then rangeNotSatisfiable size
          else
            let parts := split (replace range "bytes=" "") "-" in
            let startStr := nth_error parts 0 in
            let endStr := nth_error parts 1 in
            let start := parseInt startStr in
            let end_ := parseInt endStr in
            match start with
            | None =>
                (* Suffix range: "bytes=-500" *)
                let suffixLength := parseInt endStr in
                match suffixLength with
                | None => rangeNotSatisfiable size
                | Some suffixLength =>
                    checkedRange content (Z.max (size - suffixLength) 0) (size - 1)
                end
            | Some start =>
                checkedRange content start
                  (match end_ with None => size - 1 | Some e => e end)
            end
      end
  end.

(** A string with the separator of the two fields of a range in it. *)
Fixpoint has_dash (s : string) : bool :=
  match s with
  | EmptyString => false
  | String c r => Ascii.eqb c "-" || has_dash r
  end.

(** The header value with [s] and [e] as its two fields. *)
Definition rangeHeader (s e : string) : string := "bytes=" ++ s ++ "-" ++ e.

(** The bounds a header with the fields [s] and [e] asks for in a file of
    [size] bytes: [start-end] as given, [start-] up to the last byte,
    [-suffixLength] the last [suffixLength] bytes; nothing when neither field
    is a number. *)
Definition resolvedBounds (size : Z) (s e : string) : option (Z * Z) :=
  match parseInt (Some s), parseInt (Some e) with
  | Some start, Some end_ => Some (start, end_)
  | Some start, None => Some (start, size - 1)
  | None, Some suffixLength => Some (Z.max (size - suffixLength) 0, size - 1)
  | None, None => None
  end.

(** A reply is the partial content [start..end] of [content]. *)
Definition is_partial_content (content : list Byte.byte) (start end_ : Z)
    (r : Response) : Prop :=
  status r = 206 /\
  header "Content-Range" r =
    Some ("bytes " ++ toString start ++ "-" ++ toString end_ ++ "/"
            ++ toString (stat_size content)) /\
  header "Accept-Ranges" r = Some "bytes" /\
  header "Content-Length" r = Some (toString (end_ - start + 1)) /\
  header "Content-Type" r = Some "video/mp4" /\
  Z.of_nat (List.length (body r)) = end_ - start + 1 /\
  forall i : nat,
    (i < List.length (body r))%nat ->
    nth_error (body r) i = nth_error content (Z.to_nat start + i).

(** A reply is the refusal of a range on a file of [size] bytes. *)
Definition is_range_not_satisfiable (size : Z) (r : Response) : Prop :=
  status r = 416 /\
  header "Content-Range" r = Some ("bytes */" ++ toString size) /\
  body r = [].

(** The reply to a request for an existing file with the [Range] header
    [range]. *)
Definition get (content : list Byte.byte) (range : string) : Response :=
  stream (Some content) (mkRequest (Some range)).

(** The text of [s] before its first dash. *)
Fixpoint first_field (s : string) : string :=
  match s with
  | EmptyString => EmptyString
  | String c r => if Ascii.eqb c "-" then EmptyString else String c (first_field r)
  end.

(** A file of a thousand bytes, numbered modulo 256. *)
Definition thousand : list Byte.byte :=
  map (fun i => match Byte.of_N (N.of_nat (i mod 256)) with
                | Some b => b
                | None => Byte.x00
                end) (seq 0 1000).

End Controller.

(** ** The client: [useStreamPlayer], the part that follows the server *)

Module Client.
Import JS.

Local Open Scope string_scope.

(** [FORCE_SYNC_THRESHOLD_SECONDS = 0.1] *)
Definition FORCE_SYNC_THRESHOLD_SECONDS : number := Fin (Q2Qc (1 # 10)).
Definition PLAYER_SYNC_CHECK_INTERVAL_MS : Z := 2000.

(** [function clamp(value, min, max)] *)
Definition clamp (value min max : number) : number :=
  Math_min max (Math_max min value).

(** The record kept in [lastSyncStateRef]:
    [SyncState & { receivedAtMs: number }], where [serverTimeMs] is optional
    and is stored as it came. *)
Record SyncRecord : Type := mkSyncRecord {
  isPlaying : bool;
  currentTime : number;
  serverTimeMs : value;
  receivedAtMs : Z
}.

(** What the hook reads and writes on the [<video>] element.  [playRejects]
    tells whether the promise of [video.play()] rejects (autoplay policy). *)
Record Video : Type := mkVideo {
  v_currentTime : number;
  v_paused : bool;
  v_seeking : bool;
  playRejects : bool
}.

Record Socket : Type := mkSocket {
  connected : bool
}.

(** Messages sent to the server with [socket.emit]. *)
Inductive Emit : Type :=
| EmitSync
| EmitPlay (time : number)
| EmitPause (time : number)
| EmitSeek (time : number).

(** The refs of the hook. *)
Record Player : Type := mkPlayer {
  socketRef : option Socket;
  videoElementRef : option Video;
  lastSyncStateRef : option SyncRecord;
  isScrubbingRef : bool;
  durationRef : number
}.

Definition set_video (v : Video) (p : Player) : Player :=
  mkPlayer (socketRef p) (Some v) (lastSyncStateRef p) (isScrubbingRef p) (durationRef p).

Definition set_lastSyncState (r : SyncRecord) (p : Player) : Player :=
  mkPlayer (socketRef p) (videoElementRef p) (Some r) (isScrubbingRef p) (durationRef p).

(** [socketRef.current?.emit(...)] *)
Definition socket_emit (p : Player) (m : Emit) : list Emit :=
  match socketRef p with
  | Some _ => [m]
  | None => []
  end.

(** [opts?.broadcast ?? true] *)
Definition broadcast_of (opts : option bool) : bool :=
  match opts with
  | Some b => b
  | None => true
  end.

(** [seekTo(time, opts)] *)
Definition seekTo (p : Player) (time : number) (opts : option bool)
  : Player * list Emit :=
  match videoElementRef p with
  | None => (p, [])
  | Some video =>
      let clampedTime :=
        clamp time zero (if truthy (durationRef p) then durationRef p else time) in
      let video :=
        mkVideo clampedTime (v_paused video) (v_seeking video) (playRejects video) in
      let p := set_video video p in
      let broadcast := broadcast_of opts in
      if broadcast then (p, socket_emit p (EmitSeek clampedTime)) else (p, [])
  end.

(** [pause(opts)] *)
Definition pause (p : Player) (opts : option bool) : Player * list Emit :=
  match videoElementRef p with
  | None => (p, [])
  | Some video =>
      let video :=
        mkVideo (v_currentTime video) true (v_seeking video) (playRejects video) in
      let p := set_video video p in
      let broadcast := broadcast_of opts in
      if broadcast then (p, socket_emit p (EmitPause (v_currentTime video)))
      else (p, [])
  end.

(** [play(opts)] *)
Definition play (p : Player) (opts : option bool) : Player * list Emit :=
  match videoElementRef p with
  | None => (p, [])
  | Some video =>
      if playRejects video then (p, [])
      else
        let video :=
          mkVideo (v_currentTime video) false (v_seeking video) (playRejects video) in
        let p := set_video video p in
        let broadcast := broadcast_of opts in
        if broadcast then (p, socket_emit p (EmitPlay (v_currentTime video)))
        else (p, [])
  end.

(** The element behind the reference held in [const video], in the state the
    player has brought it to. *)
Definition live (p : Player) (video : Video) : Video :=
  match videoElementRef p with
  | Some v => v
  | None => video
  end.

(** The steps shared, word for word, by [handleSyncState] and by the interval
    callback once [targetTime] is known: the forced seek and the alignment of
    play and pause. *)
Definition applyTarget (p : Player) (video : Video) (playing : bool)
    (targetTime : number) : Player * list Emit :=
  let '(p, out1) :=
    if negb (v_seeking (live p video)) then
      let driftSeconds := sub targetTime (v_currentTime (live p video)) in
      if gt (Math_abs driftSeconds) FORCE_SYNC_THRESHOLD_SECONDS then
        seekTo p targetTime (Some false)
      else (p, [])
    else (p, []) in
  let '(p, out2) :=
    if playing && v_paused (live p video) then play p (Some false) else (p, []) in
  let '(p, out3) :=
    if negb playing && negb (v_paused (live p video)) then pause p (Some false)
    else (p, []) in
  (p, out1 ++ out2 ++ out3)%list.

(** [targetTime] as both paths compute it. *)
Definition targetTime (playing : bool) (time : number) (serverTime : value)
    (nowMs : Z) : number :=
  if playing && isFiniteNumber serverTime then
    add time (Math_max zero (div (sub (of_Z nowMs) (as_number serverTime)) (of_Z 1000)))
  else time.

Definition has_field (fields : list (string * value)) (k : string) : bool :=
  existsb (fun kv => String.eqb (fst kv) k) fields.

Definition get_field (fields : list (string * value)) (k : string) : value :=
  match find (fun kv => String.eqb (fst kv) k) fields with
  | Some kv => snd kv
  | None => VUndefined
  end.

(** [handleSyncState(state: unknown)].  [recvMs] and [nowMs] are the two
    readings of [Date.now()], in that order. *)
Definition handleSyncState (p : Player) (state : value) (recvMs nowMs : Z)
  : Player * list Emit :=
  match state with
  | VObj fields =>
      if negb (has_field fields "isPlaying") || negb (has_field fields "currentTime")
      then (p, [])
      else
        match get_field fields "isPlaying" with
        | VBool playing =>
            let time := get_field fields "currentTime" in
            if negb (isFiniteNumber time) then (p, [])
            else
              let time := as_number time in
              let serverTime := get_field fields "serverTimeMs" in
              let p := set_lastSyncState (mkSyncRecord playing time serverTime recvMs) p in
              match videoElementRef p with
              | None => (p, [])
              | Some video =>
                  if isScrubbingRef p then (p, [])
                  else applyTarget p video playing (targetTime playing time serverTime nowMs)
              end
        | _ => (p, [])
        end
  | _ => (p, [])
  end.

(** The callback of the [setInterval] that runs every
    [PLAYER_SYNC_CHECK_INTERVAL_MS]. *)
Definition syncCheck (p : Player) (nowMs : Z) : Player * list Emit :=
  match socketRef p, videoElementRef p with
  | Some socket, Some video =>
      if negb (connected socket) then (p, [])
      else if isScrubbingRef p then (p, [])
      else
        match lastSyncStateRef p with
        | None => (p, [EmitSync])
        | Some lastState =>
            if nowMs - receivedAtMs lastState >? PLAYER_SYNC_CHECK_INTERVAL_MS * 2
            then (p, [EmitSync])
            else
              applyTarget p video (isPlaying lastState)
                (targetTime (isPlaying lastState) (currentTime lastState)
                   (serverTimeMs lastState) nowMs)
        end
  | _, _ => (p, [])
  end.

(** A viewer near the end of a video of sixty seconds: the element plays at
    59.5 s, and the last record says that the session was playing at 59 s
    when the server clock read [0]. *)
Definition shortVideo : Player :=
  mkPlayer (Some (mkSocket true))
    (Some (mkVideo (Fin (Q2Qc (119 # 2))) false false false))
    (Some (mkSyncRecord true (of_Z 59) (VNum (of_Z 0)) 1000))
    false
    (of_Z 60).

(** A viewer who lags: the element is paused at 10.05 s, and the last record
    says that the session was playing at 10 s when the server clock read
    [0]. *)
Definition lagging : Player :=
  mkPlayer (Some (mkSocket true))
    (Some (mkVideo (Fin (Q2Qc (201 # 20))) true false false))
    (Some (mkSyncRecord true (of_Z 10) (VNum (of_Z 0)) 2000))
    false
    (of_Z 60).

(** The position of the player's video element. *)
Definition position (p : Player) : option number :=
  match videoElementRef p with
  | Some v => Some (v_currentTime v)
  | None => None
  end.

(** The snapshot object as it arrives in a [syncState] message. *)
Definition snapshot (playing : bool) (time : number) (serverTime : value) : value :=
  VObj [("isPlaying", VBool playing); ("currentTime", VNum time);
        ("serverTimeMs", serverTime)].

(** A message that commands the session: everything but a request for a
    snapshot. *)
Definition is_command (m : Emit) : bool :=
  match m with
  | EmitSync => false
  | _ => true
  end.

End Client.

From Stdlib Require Import Qround.

(** ** The gateway's broadcast timer *)

Module Lifecycle.
Import JS Gateway.

(** The timers of the process: [setInterval] hands out a fresh handle and
    keeps it active until [clearInterval] is called on it.  A handle is an
    object, hence always truthy. *)
Record Timers : Type := mkTimers {
  nextHandle : nat;
  active : list nat
}.

Definition setInterval (ts : Timers) : nat * Timers :=
  (nextHandle ts, mkTimers (S (nextHandle ts)) (nextHandle ts :: active ts)).

Definition clearInterval (h : nat) (ts : Timers) : Timers :=
  mkTimers (nextHandle ts) (filter (fun h' => negb (Nat.eqb h' h)) (active ts)).

(** [afterInit()]: [broadcastIntervalId] is the field of the gateway. *)
Definition afterInit (broadcastIntervalId : option nat) (ts : Timers)
  : option nat * Timers :=
  let '(h, ts) := setInterval ts in
  (Some h, ts).

(** [onModuleDestroy()] *)
Definition onModuleDestroy (broadcastIntervalId : option nat) (ts : Timers)
  : option nat * Timers :=
  let ts :=
    match broadcastIntervalId with
    | Some h => clearInterval h ts
    | None => ts
    end in
  (None, ts).

(** Handles are handed out in increasing order. *)
Definition well_formed (ts : Timers) : Prop :=
  forall h, In h (active ts) -> (h < nextHandle ts)%nat.

End Lifecycle.

(** ** The session on the wire *)

Module Session.
Import JS Gateway.

(** A [SyncState] as socket.io delivers it to a client: an object with the
    three fields in the order [getSyncState] writes them. *)
Definition wire (s : SyncState) : value :=
  VObj [("isPlaying"%string, VBool (ss_isPlaying s));
        ("currentTime"%string, VNum (ss_currentTime s));
        ("serverTimeMs"%string, VNum (of_Z (ss_serverTimeMs s)))].

(** Events that carry no command: snapshot requests, ticks of the timer, and
    seeks whose payload is not a finite number. *)
Definition carries_no_command (e : Event) : bool :=
  match e with
  | EvSync _ _ | EvTick _ => true
  | EvSeek time _ _ => negb (isFiniteNumber time)
  | _ => false
  end.

(** A session playing since the clock read 1000, with its checkpoint at 2.5 s. *)
Definition rolling : StreamState := mkStreamState true (Fin (Q2Qc (5 # 2))) 1000.

End Session.

(** ** Shapes of text around a numeral *)

Module Text.
Import Controller.

Fixpoint all_whitespace (s : string) : bool :=
  match s with
  | EmptyString => true
  | String c r => isWhiteSpace c && all_whitespace r
  end.

(** The text does not go on with a decimal digit. *)
Definition no_digit_ahead (s : string) : bool :=
  match s with
  | EmptyString => true
  | String c _ =>
      match digit_of c with
      | Some _ => false
      | None => true
      end
  end.

End Text.

(** ** The other controls of the hook *)

Module Controls.
Import JS Client.

(** [togglePlay(opts)] *)
Definition togglePlay (p : Player) (opts : option bool) : Player * list Emit :=
  match videoElementRef p with
  | None => (p, [])
  | Some video => if v_paused video then play p opts else pause p opts
  end.

(** The numbers the element and the refs hold are finite: the position of a
    video element, the duration kept by [updateMetadata], and the time of a
    record that passed the checks of [handleSyncState]. *)
Definition finite_refs (p : Player) : Prop :=
  (forall v, videoElementRef p = Some v -> exists x : Qc, v_currentTime v = Fin x) /\
  (exists d : Qc, durationRef p = Fin d) /\
  (forall r, lastSyncStateRef p = Some r -> exists c : Qc, currentTime r = Fin c).

(** A viewer who is dragging the seek control. *)
Definition scrubbing : Player :=
  mkPlayer (Some (mkSocket true))
    (Some (mkVideo (of_Z 10) false false false))
    (Some (mkSyncRecord true (of_Z 50) (VNum (of_Z 0)) 1000))
    true
    (of_Z 60).

(** A viewer whose last record was received at [1000]. *)
Definition waiting : Player :=
  mkPlayer (Some (mkSocket true))
    (Some (mkVideo (of_Z 10) false false false))
    (Some (mkSyncRecord true (of_Z 10) (VNum (of_Z 0)) 1000))
    false
    (of_Z 60).

End Controls.

(** ** What the player shows: the clock and the address of the video *)

Module Display.
Import JS.

Local Open Scope string_scope.

(** [a < b] *)
Definition lt (a b : number) : bool := gt b a.

(** [Math.floor(a)] *)
Definition Math_floor (a : number) : number :=
  match a with
  | Fin x => of_Z (Qfloor x)
  | _ => a
  end.

(** The integer part of a rational, towards zero. *)
Definition Qtruncate (x : Q) : Z :=
  if Qle_bool 0 x then Qfloor x else Qceiling x.

(** [a % b]: the remainder has the sign of [a]. *)
Definition rem (a b : number) : number :=
  match a, b with
  | NaN, _ | _, NaN => NaN
  | (PosInf | NegInf), _ => NaN
  | Fin x, (PosInf | NegInf) => Fin x
  | Fin x, Fin y =>
      if Qc_eqb y 0%Qc then NaN
      else Fin (x - y * Q2Qc (inject_Z (Qtruncate (x / y)%Qc)))%Qc
  end.

(** [n.toString()] for a number that holds an integer, which is all that
    [formatTime] applies it to (the results of [Math.floor]). *)
Definition int_toString (n : number) : string :=
  match n with
  | NaN => "NaN"
  | PosInf => "Infinity"
  | NegInf => "-Infinity"
  | Fin x => Controller.toString (Qfloor x)
  end.

Fixpoint fill (c : ascii) (n : nat) : string :=
  match n with
  | O => EmptyString
  | S n => String c (fill c n)
  end.

(** [s.padStart(len, c)] with a filler of one character. *)
Definition padStart (s : string) (len : nat) (c : ascii) : string :=
  fill c (len - String.length s) ++ s.

(** [function formatTime(totalSeconds: number)] *)
Definition formatTime (totalSeconds : number) : string :=
  if negb (Number_isFinite totalSeconds) || lt totalSeconds zero then "0:00"
  else
    let seconds := Math_floor (rem totalSeconds (of_Z 60)) in
    let minutes := Math_floor (rem (div totalSeconds (of_Z 60)) (of_Z 60)) in
    let hours := Math_floor (div totalSeconds (of_Z 3600)) in
    let paddedSeconds := padStart (int_toString seconds) 2 "0" in
    if gt hours zero then
      int_toString hours ++ ":" ++ padStart (int_toString minutes) 2 "0"
        ++ ":" ++ paddedSeconds
    else int_toString minutes ++ ":" ++ paddedSeconds.


(** [value.replace(/\/+$/, '')]: the string without the slashes it ends
    with. *)
Fixpoint trimTrailingSlashes (value : string) : string :=
  match value with
  | EmptyString => EmptyString
  | String c r =>
      match trimTrailingSlashes r with
      | EmptyString => if Ascii.eqb c "/" then EmptyString else String c EmptyString
      | r' => String c r'
      end
  end.

(** [videoSrc]: [`${normalizedBackendUrl}/video`] *)
Definition videoSrc (backendUrl : string) : string :=
  trimTrailingSlashes backendUrl ++ "/video".

Fixpoint ends_with_slash (s : string) : bool :=
  match s with
  | EmptyString => false
  | String c EmptyString => Ascii.eqb c "/"
  | String _ r => ends_with_slash r
  end.

End Display.

(** * Properties *)

(** ** Arithmetic of [number] *)

Module NumberFacts.
Import JS.

(** From canonical rationals to plain ones, where [lia] and [lra] apply. *)
Ltac qc_to_q :=
  unfold Qcdiv, Qcmult, Qcinv, Qcminus, Qcplus, Qcopp, Q2Qc;
  cbn [this]; rewrite ?Qred_correct.

Lemma Qc_leb_le (x y : Qc) : Qc_leb x y = true <-> (x <= y)%Qc.
Proof. unfold Qc_leb, Qcle. apply Qle_bool_iff. Qed.

Lemma Qc_leb_gt (x y : Qc) : Qc_leb x y = false <-> (y < x)%Qc.
Proof.
  unfold Qclt. rewrite <- not_true_iff_false, Qc_leb_le. unfold Qcle.
  split; [apply Qnot_le_lt | apply Qlt_not_le].
Qed.

Lemma Qcmax_zero_nonneg (q : Qc) : (0 <= Qcmax 0 q)%Qc.
Proof.
  unfold Qcmax. destruct (Qc_leb 0 q) eqn:E.
  - now apply Qc_leb_le.
  - apply Qcle_refl.
Qed.

Lemma Qcmax_zero_id (q : Qc) : (0 <= q)%Qc -> Qcmax 0 q = q.
Proof.
  intros H. unfold Qcmax. apply Qc_leb_le in H. now rewrite H.
Qed.

Lemma Qcmax_zero_nonpos (q : Qc) : (q <= 0)%Qc -> Qcmax 0 q = 0%Qc.
Proof.
  intros H. unfold Qcmax. destruct (Qc_leb 0 q) eqn:E; [|reflexivity].
  apply Qc_leb_le in E. now apply Qcle_antisym.
Qed.

Lemma Math_max_zero_Fin (q : Qc) : Math_max zero (Fin q) = Fin (Qcmax 0 q).
Proof. unfold Math_max, zero, of_Z, Qcmax. simpl. now destruct (Qc_leb _ q). Qed.

Lemma finite_nonneg_max (q : Qc) : finite_nonneg (Math_max zero (Fin q)).
Proof.
  rewrite Math_max_zero_Fin. exists (Qcmax 0 q). split; [reflexivity|].
  apply Qcmax_zero_nonneg.
Qed.

Lemma Math_max_zero_fixed (n : number) : finite_nonneg n -> Math_max zero n = n.
Proof.
  intros (q & -> & Hq). now rewrite Math_max_zero_Fin, Qcmax_zero_id.
Qed.

(** Milliseconds between two clock readings, in seconds. *)
Lemma elapsed_seconds (a b : Z) :
  div (sub (of_Z a) (of_Z b)) (of_Z 1000) = Fin (seconds (a - b)).
Proof.
  unfold div, sub, add, neg, of_Z.
  replace (Qc_eqb (Q2Qc (inject_Z 1000)) 0%Qc) with false by reflexivity.
  f_equal. apply Qc_is_canon. unfold seconds. qc_to_q.
  unfold Qeq, Qmult, Qplus, Qopp, Qinv, inject_Z. simpl. lia.
Qed.

Lemma seconds_nonpos (d : Z) : d <= 0 -> (seconds d <= 0)%Qc.
Proof.
  intros H. unfold seconds, Qcle. qc_to_q.
  unfold Qle. simpl. lia.
Qed.

Lemma seconds_zero : seconds 0 = 0%Qc.
Proof. apply Qc_is_canon. reflexivity. Qed.

End NumberFacts.

(** ** The clock model and the command handlers *)

Module GatewayFacts.
Import JS Gateway NumberFacts.

Lemma baseTime_finite (st : StreamState) : exists b : Qc, baseTime st = Fin b.
Proof.
  unfold baseTime, zero, of_Z. destruct (currentTime st); simpl; eauto.
Qed.

Lemma baseTime_checkpoint (st : StreamState) (c : Qc) :
  currentTime st = Fin c -> baseTime st = Fin c.
Proof. intros H. unfold baseTime. now rewrite H. Qed.

Lemma getEffectiveTime_base (st : StreamState) (nowMs : Z) (b : Qc) :
  baseTime st = Fin b ->
  getEffectiveTime st nowMs =
  Fin (if isPlaying st
       then Qcmax 0 (b + Qcmax 0 (seconds (nowMs - updatedAtMs st)))
       else Qcmax 0 b).
Proof.
  intros Hb. unfold getEffectiveTime. rewrite Hb.
  destruct (isPlaying st); simpl negb; cbv iota zeta.
  - rewrite elapsed_seconds, Math_max_zero_Fin. simpl add.
    apply Math_max_zero_Fin.
  - apply Math_max_zero_Fin.
Qed.

Lemma getEffectiveTime_finite_nonneg (st : StreamState) (nowMs : Z) :
  finite_nonneg (getEffectiveTime st nowMs).
Proof.
  destruct (baseTime_finite st) as [b Hb].
  rewrite (getEffectiveTime_base st nowMs b Hb). eexists; split; [reflexivity|].
  destruct (isPlaying st); apply Qcmax_zero_nonneg.
Qed.

(** C1.  For a session state whose checkpoint [currentTime] is a finite number
    [c] (the invariant of the session state), the effective time at [nowMs]
    is [max(0, c)] when the session is paused and
    [max(0, c + max(0, (nowMs - updatedAtMs)/1000))] when it is playing; and
    when [nowMs] is not later than [updatedAtMs] the elapsed time counts as
    zero, so that the result is [max(0, c)] again: negative elapsed time is
    never subtracted. *)
Theorem effectiveTime_clock_model (st : StreamState) (nowMs : Z) (c : Qc) :
  currentTime st = Fin c ->
  getEffectiveTime st nowMs =
    Fin (if isPlaying st
         then Qcmax 0 (c + Qcmax 0 (seconds (nowMs - updatedAtMs st)))
         else Qcmax 0 c)
  /\ (nowMs <= updatedAtMs st -> getEffectiveTime st nowMs = Fin (Qcmax 0 c)).
Proof.
  intros Hc. apply baseTime_checkpoint in Hc.
  rewrite (getEffectiveTime_base st nowMs c Hc). split; [reflexivity|].
  intros Hskew. destruct (isPlaying st); [|reflexivity].
  rewrite (Qcmax_zero_nonpos (seconds _)) by (apply seconds_nonpos; lia).
  now rewrite Qcplus_0_r.
Qed.

Lemma effectiveTime_clock_model_witness :
  getEffectiveTime skewed 2000 =
    Fin (Qcmax 0 (Q2Qc (21 # 2) + Qcmax 0 (seconds (2000 - 5000))))
  /\ getEffectiveTime skewed 2000 = Fin (Qcmax 0 (Q2Qc (21 # 2))).
Proof.
  destruct (effectiveTime_clock_model skewed 2000 (Q2Qc (21 # 2)) eq_refl) as [H1 H2].
  split; [exact H1 | apply H2; simpl; lia].
Defined.

(** C9.  Committing at [nowMs] and taking a snapshot at the same [nowMs]
    gives, as the snapshot's [currentTime], the effective time that the state
    had at [nowMs] before the commit. *)
Theorem commit_then_snapshot (st : StreamState) (nowMs : Z) :
  ss_currentTime (getSyncState (commitTime st nowMs) nowMs) =
  getEffectiveTime st nowMs.
Proof.
  unfold getSyncState, commitTime. cbn [ss_currentTime].
  destruct (getEffectiveTime_finite_nonneg st nowMs) as (q & Hq & Hpos).
  rewrite Hq.
  rewrite (getEffectiveTime_base _ nowMs q) by reflexivity. cbn.
  rewrite Z.sub_diag, seconds_zero, (Qcmax_zero_nonpos 0) by apply Qcle_refl.
  rewrite Qcplus_0_r, Qcmax_zero_id by assumption.
  now destruct (isPlaying st).
Qed.

(** The state a play or pause leaves behind: the checkpoint is the payload
    floored at zero when the payload is a finite number, and the committed
    effective time otherwise. *)
Lemma checkpoint_then_flag (g : StreamGateway) (time : value) (nowMs : Z) (b : bool) :
  with_state (set_updatedAtMs nowMs)
    (with_state (set_isPlaying b)
       (if isFiniteNumber time then
          with_state (set_updatedAtMs nowMs)
            (with_state (set_currentTime (Math_max zero (as_number time))) g)
        else with_state (fun st => commitTime st nowMs) g)) =
  mkGateway (server g)
    (mkStreamState b
       match time with
       | VNum (Fin t) => Fin (Qcmax 0 t)
       | _ => getEffectiveTime (state g) nowMs
       end nowMs).
Proof.
  destruct time as [| | |[| | |t]| |]; cbn; try reflexivity.
  now rewrite <- Math_max_zero_Fin.
Qed.

Lemma broadcast_reaches_all (g : StreamGateway) (nowMs : Z) :
  broadcastSyncState g nowMs =
  map (fun s => mkEmission s "syncState" (getSyncState (state g) nowMs))
    (connectedPeers g).
Proof.
  unfold broadcastSyncState, connectedPeers, server_emit.
  now destruct (server g).
Qed.

(** C4.  A play event handled at [nowMs] leaves [isPlaying = true] and
    [updatedAtMs = nowMs]; its [currentTime] is [max(0, t)] when the payload
    is a finite number [t], and the effective time of the previous state at
    [nowMs] (the committed checkpoint) for every other payload.  One
    [syncState] message carrying the snapshot of the new state goes to each
    connected socket.  A pause event does the same with [isPlaying = false]. *)
Theorem play_pause_checkpoint (g : StreamGateway) (time : value) (nowMs bcastMs : Z) :
  let after (playing : bool) :=
    mkGateway (server g)
      (mkStreamState playing
         match time with
         | VNum (Fin t) => Fin (Qcmax 0 t)
         | _ => getEffectiveTime (state g) nowMs
         end nowMs) in
  let snapshots (g' : StreamGateway) :=
    map (fun s => mkEmission s "syncState" (getSyncState (state g') bcastMs))
      (connectedPeers g) in
  handlePlay g time nowMs bcastMs = (after true, snapshots (after true)) /\
  handlePause g time nowMs bcastMs = (after false, snapshots (after false)).
Proof.
  cbv zeta. unfold handlePlay, handlePause. cbv zeta.
  rewrite !checkpoint_then_flag, !broadcast_reaches_all. now split.
Qed.

(** C5.  A seek whose payload is not a finite number changes nothing and
    sends nothing.  A seek with a finite payload [t] sets [currentTime] to
    [max(0, t)] and [updatedAtMs] to [nowMs], keeps [isPlaying], and sends the
    snapshot of the new state to each connected socket. *)
Theorem seek_finite_or_ignored (g : StreamGateway) (time : value) (nowMs bcastMs : Z) :
  handleSeek g time nowMs bcastMs =
  match time with
  | VNum (Fin t) =>
      let g' :=
        mkGateway (server g)
          (mkStreamState (isPlaying (state g)) (Fin (Qcmax 0 t)) nowMs) in
      (g',
       map (fun s => mkEmission s "syncState" (getSyncState (state g') bcastMs))
         (connectedPeers g))
  | _ => (g, @nil Emission)
  end.
Proof.
  unfold handleSeek.
  destruct time as [| | |[| | |t]| |]; cbn [isFiniteNumber Number_isFinite negb];
    try reflexivity.
  cbv zeta. rewrite broadcast_reaches_all. cbn. now rewrite <- Math_max_zero_Fin.
Qed.

(** Every event keeps the checkpoint finite and not negative. *)
Lemma checkpoint_finite_nonneg (st : StreamState) (time : value) (nowMs : Z) :
  finite_nonneg
    match time with
    | VNum (Fin t) => Fin (Qcmax 0 t)
    | _ => getEffectiveTime st nowMs
    end.
Proof.
  destruct time as [| | |[| | |t]| |];
    try apply getEffectiveTime_finite_nonneg.
  eexists; split; [reflexivity | apply Qcmax_zero_nonneg].
Qed.

Lemma step_keeps_checkpoint (g : StreamGateway) (e : Event) :
  finite_nonneg (currentTime (state g)) ->
  finite_nonneg (currentTime (state (fst (step g e)))).
Proof.
  intros Hinv. destruct e as [time n b|time n b|time n b|c n|n]; cbn [step].
  - unfold handlePlay. cbv zeta. rewrite checkpoint_then_flag. cbn.
    apply checkpoint_finite_nonneg.
  - unfold handlePause. cbv zeta. rewrite checkpoint_then_flag. cbn.
    apply checkpoint_finite_nonneg.
  - unfold handleSeek.
    destruct time as [| | |[| | |t]| |]; cbn; try assumption.
    apply finite_nonneg_max.
  - exact Hinv.
  - exact Hinv.
Qed.

Lemma run_keeps_checkpoint (evs : list Event) (g : StreamGateway) :
  finite_nonneg (currentTime (state g)) ->
  finite_nonneg (currentTime (state (run g evs))).
Proof.
  revert g. induction evs as [|e evs IH]; intros g Hinv; cbn [run].
  - exact Hinv.
  - apply IH. now apply step_keeps_checkpoint.
Qed.

(** C7.  From the initial state, whatever events arrive (play, pause and seek
    with any payload, sync requests, ticks of the broadcast timer) and
    whatever the clock reads, [currentTime] of the session state is a finite
    number and is not negative. *)
Theorem currentTime_finite_nonneg
    (srv : option Server) (startMs : Z) (evs : list Event) :
  exists q : Qc,
    currentTime (state (run (newGateway srv startMs) evs)) = Fin q /\ (0 <= q)%Qc.
Proof.
  apply run_keeps_checkpoint. exists 0%Qc. split; [reflexivity | apply Qcle_refl].
Qed.

End GatewayFacts.

(** ** The media endpoint *)

Module ControllerFacts.
Import Controller.

Local Open Scope string_scope.
Local Open Scope Z_scope.

(** *** Strings *)

Lemma startsWith_bytes (r : string) : startsWith ("bytes=" ++ r) "bytes=" = true.
Proof. reflexivity. Qed.

Lemma replace_bytes (r : string) : replace ("bytes=" ++ r) "bytes=" "" = r.
Proof. reflexivity. Qed.

Lemma split_nonempty (s : string) (sep : ascii) : split s sep <> [].
Proof.
  destruct s as [|c r]; cbn [split]; [discriminate|].
  destruct (Ascii.eqb c sep); [discriminate|].
  destruct (split r sep); discriminate.
Qed.

Lemma split_no_dash (s : string) : has_dash s = false -> split s "-" = [s].
Proof.
  induction s as [|c r IH]; cbn [has_dash split]; [reflexivity|].
  intros H. apply orb_false_elim in H as [Hc Hr].
  rewrite Hc, (IH Hr). reflexivity.
Qed.

Lemma split_at_dash (s r : string) :
  has_dash s = false -> split (s ++ String "-" r) "-" = s :: split r "-".
Proof.
  induction s as [|c s IH]; intros H.
  - reflexivity.
  - cbn [has_dash] in H. apply orb_false_elim in H as [Hc Hs].
    cbn [append split]. rewrite Hc, (IH Hs). reflexivity.
Qed.

(** The two fields that [stream] reads in a header [bytes=s-e]. *)
Lemma fields_of_rangeHeader (s e : string) :
  has_dash s = false -> has_dash e = false ->
  split (replace (rangeHeader s e) "bytes=" "") "-" = [s; e].
Proof.
  intros Hs He. unfold rangeHeader. rewrite replace_bytes.
  change (s ++ "-" ++ e) with (s ++ String "-" e).
  now rewrite split_at_dash, split_no_dash.
Qed.

(** *** Decimal numerals *)

Lemma digits_acc_pos (u : Decimal.uint) (p : positive) :
  digits_acc (NilEmpty.string_of_uint u) (Some (Z.pos p)) =
  Some (Z.pos (Pos.of_uint_acc u p)).
Proof.
  revert p. induction u; intros p; cbn [NilEmpty.string_of_uint digits_acc Pos.of_uint_acc];
    [reflexivity | ..];
    (match goal with
     | |- context [digit_of ?c] =>
         let d := eval vm_compute in (digit_of c) in
         change (digit_of c) with d
     end; cbv iota; rewrite <- IHu; do 2 f_equal; lia).
Qed.

Lemma digits_acc_zero (u : Decimal.uint) :
  digits_acc (NilEmpty.string_of_uint u) (Some 0) = Some (Z.of_N (Pos.of_uint u)).
Proof.
  induction u; cbn [NilEmpty.string_of_uint digits_acc Pos.of_uint];
    [reflexivity | ..];
    (match goal with
     | |- context [digit_of ?c] =>
         let d := eval vm_compute in (digit_of c) in
         change (digit_of c) with d
     end; cbv iota); [exact IHu | ..];
    cbn [Z.of_N]; rewrite <- digits_acc_pos; reflexivity.
Qed.

Lemma digits_acc_start (u : Decimal.uint) :
  u <> Decimal.Nil ->
  digits_acc (NilEmpty.string_of_uint u) None = Some (Z.of_N (Pos.of_uint u)).
Proof.
  intros Hu. rewrite <- digits_acc_zero.
  destruct u; [congruence | ..]; reflexivity.
Qed.

Lemma has_dash_uint (u : Decimal.uint) :
  has_dash (NilEmpty.string_of_uint u) = false.
Proof. induction u; cbn; auto. Qed.

(** A numeral starts with a digit: [parseInt] skips nothing and reads no
    sign. *)
Lemma parseInt_uint (u : Decimal.uint) :
  u <> Decimal.Nil ->
  parseInt (Some (NilEmpty.string_of_uint u)) = Some (Z.of_N (Pos.of_uint u)).
Proof.
  intros Hu. pose proof (digits_acc_start u Hu) as H.
  destruct u; [congruence | ..]; unfold parseInt;
    cbn [NilEmpty.string_of_uint trimStart] in *;
    (match goal with
     | |- context [isWhiteSpace ?c] =>
         change (isWhiteSpace c) with false
     end; cbn [Ascii.eqb Bool.eqb]; cbv iota zeta; rewrite H; f_equal; lia).
Qed.

Lemma toString_nonneg (n : Z) :
  0 <= n ->
  exists u, u <> Decimal.Nil /\ toString n = NilEmpty.string_of_uint u /\
            Z.of_N (Pos.of_uint u) = n.
Proof.
  intros Hn. destruct n as [|p|p]; [| |lia].
  - exists (Decimal.D0 Decimal.Nil). repeat split. discriminate.
  - exists (Pos.to_uint p). split; [apply DecimalPos.Unsigned.to_uint_nonnil|].
    split.
    + unfold toString. cbn [Z.to_int NilZero.string_of_int].
      unfold NilZero.string_of_uint.
      pose proof (DecimalPos.Unsigned.to_uint_nonnil p).
      destruct (Pos.to_uint p); [congruence | ..]; reflexivity.
    + now rewrite DecimalPos.Unsigned.of_to.
Qed.

(** [parseInt] reads back what [toString] prints. *)
Lemma parseInt_toString (n : Z) : 0 <= n -> parseInt (Some (toString n)) = Some n.
Proof.
  intros Hn. destruct (toString_nonneg n Hn) as (u & Hu & -> & <-).
  now apply parseInt_uint.
Qed.

Lemma has_dash_toString (n : Z) : 0 <= n -> has_dash (toString n) = false.
Proof.
  intros Hn. destruct (toString_nonneg n Hn) as (u & _ & -> & _).
  apply has_dash_uint.
Qed.

Lemma parseInt_empty : parseInt (Some "") = None.
Proof. reflexivity. Qed.


(** *** The handler *)

Lemma readRange_length (content : list Byte.byte) (start end_ : Z) :
  0 <= start <= end_ -> end_ < stat_size content ->
  Z.of_nat (List.length (readRange content start end_)) = end_ - start + 1.
Proof.
  unfold stat_size, readRange. intros H1 H2.
  rewrite length_firstn, length_skipn. lia.
Qed.

Lemma readRange_nth (content : list Byte.byte) (start end_ : Z) (i : nat) :
  (i < List.length (readRange content start end_))%nat ->
  nth_error (readRange content start end_) i = nth_error content (Z.to_nat start + i).
Proof.
  unfold readRange. intros Hi. rewrite length_firstn in Hi.
  rewrite nth_error_firstn, nth_error_skipn.
  destruct (Nat.ltb_spec i (Z.to_nat (end_ - start + 1))); [reflexivity | lia].
Qed.

Lemma partialContent_ok (content : list Byte.byte) (start end_ : Z) :
  0 <= start <= end_ -> end_ < stat_size content ->
  is_partial_content content start end_ (partialContent content start end_).
Proof.
  intros H1 H2. unfold is_partial_content, partialContent.
  cbn [status body]. repeat split.
  - now apply readRange_length.
  - apply readRange_nth.
Qed.

Lemma rangeNotSatisfiable_ok (size : Z) :
  is_range_not_satisfiable size (rangeNotSatisfiable size).
Proof. repeat split. Qed.

Lemma checkedRange_valid (content : list Byte.byte) (start end_ : Z) :
  0 <= start <= end_ -> end_ < stat_size content ->
  checkedRange content start end_ = partialContent content start end_.
Proof.
  intros H1 H2. unfold checkedRange. cbv zeta.
  replace (start <? 0) with false by lia.
  replace (end_ >=? stat_size content) with false by lia.
  replace (start >? end_) with false by lia.
  reflexivity.
Qed.

Lemma checkedRange_invalid (content : list Byte.byte) (start end_ : Z) :
  ~ (0 <= start <= end_ /\ end_ < stat_size content) ->
  checkedRange content start end_ = rangeNotSatisfiable (stat_size content).
Proof.
  intros H. unfold checkedRange. cbv zeta.
  destruct (start <? 0) eqn:E1; [reflexivity|].
  destruct (end_ >=? stat_size content) eqn:E2; [reflexivity|].
  destruct (start >? end_) eqn:E3; [reflexivity|].
  exfalso. apply H. lia.
Qed.

(** Whatever the bounds, the check answers with one of two replies. *)
Lemma checkedRange_cases (content : list Byte.byte) (start end_ : Z) :
  (0 <= start <= end_ /\ end_ < stat_size content /\
   checkedRange content start end_ = partialContent content start end_) \/
  checkedRange content start end_ = rangeNotSatisfiable (stat_size content).
Proof.
  destruct (Z_le_dec 0 start); [|right; apply checkedRange_invalid; lia].
  destruct (Z_le_dec start end_); [|right; apply checkedRange_invalid; lia].
  destruct (Z_lt_dec end_ (stat_size content));
    [|right; apply checkedRange_invalid; lia].
  left. repeat split; try assumption. now apply checkedRange_valid.
Qed.

(** What [stream] answers to a header made of two fields. *)
Lemma get_rangeHeader (content : list Byte.byte) (s e : string) :
  has_dash s = false -> has_dash e = false ->
  get content (rangeHeader s e) =
  match resolvedBounds (stat_size content) s e with
  | Some (start, end_) => checkedRange content start end_
  | None => rangeNotSatisfiable (stat_size content)
  end.
Proof.
  intros Hs He. unfold get, stream. cbn [headers_range].
  pose proof (fields_of_rangeHeader s e Hs He) as Hf.
  unfold rangeHeader in *. cbn [append] in *.
  cbn [startsWith Ascii.eqb Bool.eqb andb negb]. cbv zeta.
  rewrite Hf. cbn [nth_error]. unfold resolvedBounds.
  destruct (parseInt (Some s)), (parseInt (Some e)); reflexivity.
Qed.

(** A non-empty range header gets a 206 with valid bounds or the 416. *)
Lemma get_cases (content : list Byte.byte) (range : string) :
  range <> "" ->
  (exists start end_,
      0 <= start <= end_ /\ end_ < stat_size content /\
      get content range = partialContent content start end_) \/
  get content range = rangeNotSatisfiable (stat_size content).
Proof.
  intros Hne. unfold get, stream. cbn [headers_range].
  destruct range as [|c range]; [congruence|].
  set (h := String c range). cbv zeta.
  destruct (startsWith h "bytes="); cbn [negb]; [|now right].
  set (parts := split _ _).
  destruct (parseInt (nth_error parts 0)) as [start|].
  - destruct (checkedRange_cases content start
                match parseInt (nth_error parts 1) with
                | Some e => e
                | None => stat_size content - 1
                end) as [(H1 & H2 & ->)| ->]; [left; eauto | now right].
  - destruct (parseInt (nth_error parts 1)) as [n|]; [|now right].
    destruct (checkedRange_cases content (Z.max (stat_size content - n) 0)
                (stat_size content - 1)) as [(H1 & H2 & ->)| ->];
      [left; eauto | now right].
Qed.


(** The second field that [stream] reads is the text between the first dash
    and the next one, and [parseInt] fails on it as soon as it fails on all
    that follows the first dash. *)
Lemma split_hd (e : string) : hd_error (split e "-") = Some (first_field e).
Proof.
  induction e as [|c r IH]; cbn [split first_field]; [reflexivity|].
  destruct (Ascii.eqb c "-"); [reflexivity|].
  destruct (split r "-"); cbn in *; congruence.
Qed.

Lemma digits_acc_first_field (e : string) (acc : option Z) :
  digits_acc (first_field e) acc = digits_acc e acc.
Proof.
  revert acc. induction e as [|c r IH]; intros acc; cbn [first_field]; [reflexivity|].
  destruct (Ascii.eqb_spec c "-") as [->|Hc]; [reflexivity|].
  cbn [digits_acc]. destruct (digit_of c); [apply IH | reflexivity].
Qed.

Lemma isWhiteSpace_not_dash (c : ascii) : isWhiteSpace c = true -> Ascii.eqb c "-" = false.
Proof.
  destruct (Ascii.eqb_spec c "-") as [->|]; [discriminate | reflexivity].
Qed.

Lemma trimStart_first_field (e : string) :
  trimStart (first_field e) = first_field (trimStart e).
Proof.
  induction e as [|c r IH]; [reflexivity|]. cbn [first_field trimStart].
  destruct (isWhiteSpace c) eqn:Hw.
  - rewrite (isWhiteSpace_not_dash c Hw). cbn [trimStart]. now rewrite Hw.
  - cbn [first_field]. destruct (Ascii.eqb c "-"); [reflexivity|].
    cbn [trimStart]. now rewrite Hw.
Qed.

Lemma parseInt_first_field (e : string) :
  parseInt (Some e) = None -> parseInt (Some (first_field e)) = None.
Proof.
  unfold parseInt. rewrite trimStart_first_field.
  destruct (trimStart e) as [|c r]; [reflexivity|]. cbn [first_field].
  destruct (Ascii.eqb c "-") eqn:Hc; [reflexivity|]. rewrite Hc.
  destruct (Ascii.eqb c "+").
  - now rewrite digits_acc_first_field.
  - intros H. rewrite <- digits_acc_first_field in H.
    cbn [first_field] in H. now rewrite Hc in H.
Qed.

(** What [stream] answers to [bytes=s-e] when only [s] is known to be free of
    dashes. *)
Lemma get_open_field (content : list Byte.byte) (s e : string) :
  has_dash s = false ->
  get content (rangeHeader s e) =
  match parseInt (Some s) with
  | Some start =>
      checkedRange content start
        match parseInt (Some (first_field e)) with
        | Some end_ => end_
        | None => stat_size content - 1
        end
  | None =>
      match parseInt (Some (first_field e)) with
      | Some suffixLength =>
          checkedRange content (Z.max (stat_size content - suffixLength) 0)
            (stat_size content - 1)
      | None => rangeNotSatisfiable (stat_size content)
      end
  end.
Proof.
  intros Hs. unfold get, stream. cbn [headers_range].
  assert (Hf : split (replace (rangeHeader s e) "bytes=" "") "-" = s :: split e "-").
  { unfold rangeHeader. rewrite replace_bytes.
    change (s ++ "-" ++ e) with (s ++ String "-" e). now apply split_at_dash. }
  unfold rangeHeader in *. cbn [append] in *.
  cbn [startsWith Ascii.eqb Bool.eqb andb negb]. cbv zeta.
  rewrite Hf. pose proof (split_hd e) as Hh.
  destruct (split e "-") as [|f rest]; cbn [hd_error] in Hh; [discriminate|].
  injection Hh as ->. reflexivity.
Qed.

Lemma get_numeric (content : list Byte.byte) (s e : string) (start end_ : Z) :
  has_dash s = false -> has_dash e = false ->
  resolvedBounds (stat_size content) s e = Some (start, end_) ->
  0 <= start <= end_ -> end_ < stat_size content ->
  is_partial_content content start end_ (get content (rangeHeader s e)).
Proof.
  intros Hs He Hb H1 H2. rewrite get_rangeHeader, Hb by assumption.
  rewrite checkedRange_valid by assumption. now apply partialContent_ok.
Qed.

(** C2.  On a file of [size] bytes, each of the headers [bytes=start-end],
    [bytes=start-] (end taken as [size - 1]) and [bytes=-suffixLength] (start
    taken as [max(size - suffixLength, 0)], end as [size - 1]), written with
    decimal numerals and with bounds [0 <= start <= end < size], is answered
    by 206 with [Content-Range: bytes start-end/size], [Accept-Ranges: bytes],
    [Content-Length] equal to [end - start + 1], [Content-Type: video/mp4],
    and a body made of the bytes of the file at offsets [start] to [end]. *)
Theorem range_request_partial_content (content : list Byte.byte) :
  let size := stat_size content in
  (forall start end_ : Z,
      0 <= start <= end_ -> end_ < size ->
      is_partial_content content start end_
        (get content ("bytes=" ++ toString start ++ "-" ++ toString end_))) /\
  (forall start : Z,
      0 <= start <= size - 1 ->
      is_partial_content content start (size - 1)
        (get content ("bytes=" ++ toString start ++ "-"))) /\
  (forall suffixLength : Z,
      0 <= suffixLength ->
      Z.max (size - suffixLength) 0 <= size - 1 ->
      is_partial_content content (Z.max (size - suffixLength) 0) (size - 1)
        (get content ("bytes=-" ++ toString suffixLength))).
Proof.
  cbv zeta. split; [|split].
  - intros start end_ H1 H2.
    apply (get_numeric content (toString start) (toString end_));
      try assumption; try (apply has_dash_toString; lia).
    unfold resolvedBounds. now rewrite !parseInt_toString by lia.
  - intros start H.
    apply (get_numeric content (toString start) ""); try lia;
      try reflexivity; try (apply has_dash_toString; lia).
    unfold resolvedBounds. now rewrite parseInt_toString, parseInt_empty by lia.
  - intros n Hn H.
    apply (get_numeric content "" (toString n)); try lia;
      try reflexivity; try (apply has_dash_toString; lia).
    unfold resolvedBounds. now rewrite parseInt_toString, parseInt_empty by lia.
Qed.

Lemma range_request_partial_content_witness :
  is_partial_content thousand 0 99 (get thousand "bytes=0-99") /\
  is_partial_content thousand 7 999 (get thousand "bytes=7-") /\
  is_partial_content thousand 950 999 (get thousand "bytes=-50").
Proof.
  destruct (range_request_partial_content thousand) as (H1 & H2 & H3).
  split; [|split].
  - apply (H1 0 99); vm_compute; intuition discriminate.
  - apply (H2 7); vm_compute; intuition discriminate.
  - apply (H3 50); vm_compute; intuition discriminate.
Defined.

(** C3, the input on which it fails.  A [Range] header whose value is the
    empty string does not start with [bytes=], and yet the reply is the whole
    file with status 200 and no [Content-Range]. *)
Lemma empty_range_header_served_whole :
  startsWith "" "bytes=" = false /\
  status (get thousand "") = 200 /\
  status (get thousand "") <> 416 /\
  header "Content-Range" (get thousand "") = None /\
  body (get thousand "") = thousand.
Proof. repeat split; try reflexivity. vm_compute. discriminate. Qed.

(** C3, amended.  On an existing file of [size] bytes, a [Range] header whose
    value is not empty gets either a 206 or the 416 reply, which carries
    [Content-Range: bytes */size] and an empty body; never a 5xx.  It gets
    the 416 when it does not start with [bytes=]; when neither of its two
    fields parses as a number (a suffix form whose length fails to parse);
    and when the bounds it resolves to violate [0 <= start <= end < size]. *)
Theorem unsatisfiable_range_416 (content : list Byte.byte) (range : string) :
  range <> "" ->
  let size := stat_size content in
  let r := get content range in
  (status r = 206 \/ is_range_not_satisfiable size r) /\
  status r < 500 /\
  (startsWith range "bytes=" = false -> is_range_not_satisfiable size r) /\
  (forall s e : string,
      range = rangeHeader s e -> has_dash s = false -> has_dash e = false ->
      match resolvedBounds size s e with
      | None => is_range_not_satisfiable size r
      | Some (start, end_) =>
          ~ (0 <= start <= end_ /\ end_ < size) -> is_range_not_satisfiable size r
      end).
Proof.
  intros Hne. cbv zeta.
  assert (Hcases : status (get content range) = 206 \/
                   is_range_not_satisfiable (stat_size content) (get content range)).
  { destruct (get_cases content range Hne) as [(a & b & _ & _ & ->)| ->].
    - now left.
    - right. apply rangeNotSatisfiable_ok. }
  split; [exact Hcases|]. split.
  { destruct Hcases as [->|(-> & _)]; lia. }
  split.
  - intros Hpre. unfold get, stream. cbn [headers_range].
    destruct range as [|c range]; [congruence|].
    rewrite Hpre. apply rangeNotSatisfiable_ok.
  - intros s e -> Hs He. rewrite get_rangeHeader by assumption.
    destruct (resolvedBounds (stat_size content) s e) as [[start end_]|].
    + intros Hbad. rewrite checkedRange_invalid by assumption.
      apply rangeNotSatisfiable_ok.
    + apply rangeNotSatisfiable_ok.
Qed.

Lemma unsatisfiable_range_416_witness :
  is_range_not_satisfiable 1000 (get thousand "items=0-5") /\
  is_range_not_satisfiable 1000 (get thousand "bytes=-abc") /\
  is_range_not_satisfiable 1000 (get thousand "bytes=2000-3000") /\
  is_range_not_satisfiable 1000 (get thousand "bytes=9-3").
Proof.
  split; [|split; [|split]].
  - refine (proj1 (proj2 (proj2
      (unsatisfiable_range_416 thousand "items=0-5" _))) eq_refl).
    discriminate.
  - refine (proj2 (proj2 (proj2
      (unsatisfiable_range_416 thousand "bytes=-abc" _))) "" "abc" eq_refl eq_refl eq_refl).
    discriminate.
  - refine (proj2 (proj2 (proj2
      (unsatisfiable_range_416 thousand "bytes=2000-3000" _)))
      "2000" "3000" eq_refl eq_refl eq_refl _).
    + discriminate.
    + vm_compute. intuition discriminate.
  - refine (proj2 (proj2 (proj2
      (unsatisfiable_range_416 thousand "bytes=9-3" _)))
      "9" "3" eq_refl eq_refl eq_refl _).
    + discriminate.
    + vm_compute. intuition discriminate.
Defined.

(** C10.  In a header [bytes=s-e], where [s] is the text before the first
    dash: when [s] parses as an integer [start] with [0 <= start < size] and
    [e] does not parse as an integer, the reply is not the 416: it is the 206
    that serves the bytes from [start] to [size - 1], the very reply to
    [bytes=s-], as if the end had been left out. *)
Theorem unparsable_end_is_open_ended
    (content : list Byte.byte) (s e : string) (start : Z) :
  has_dash s = false ->
  parseInt (Some s) = Some start ->
  0 <= start < stat_size content ->
  parseInt (Some e) = None ->
  let r := get content (rangeHeader s e) in
  status r <> 416 /\
  is_partial_content content start (stat_size content - 1) r /\
  r = get content (rangeHeader s "").
Proof.
  intros Hs Hstart Hb Hend. cbv zeta.
  assert (Hopen : forall e', parseInt (Some e') = None ->
            get content (rangeHeader s e') =
            partialContent content start (stat_size content - 1)).
  { intros e' Hp. rewrite get_open_field by assumption.
    rewrite Hstart, (parseInt_first_field e' Hp).
    apply checkedRange_valid; lia. }
  rewrite (Hopen e Hend), (Hopen "" parseInt_empty).
  split; [|split; [|reflexivity]].
  - cbn. discriminate.
  - apply partialContent_ok; lia.
Qed.

Lemma unparsable_end_is_open_ended_witness :
  status (get thousand "bytes=5-abc") <> 416 /\
  is_partial_content thousand 5 999 (get thousand "bytes=5-abc") /\
  get thousand "bytes=5-abc" = get thousand "bytes=5-".
Proof.
  apply (unparsable_end_is_open_ended thousand "5" "abc" 5);
    vm_compute; intuition discriminate.
Defined.

(** C8, as the code has it.  When the file cannot be stat'ed the 404 reply
    carries no [Access-Control-Allow-Origin] header, while every reply for an
    existing file (200, 206 and each 416) carries it with the value [*]. *)
Theorem cors_header_missing_on_404 (req : Request) :
  status (stream None req) = 404 /\
  header "Access-Control-Allow-Origin" (stream None req) = None /\
  forall content : list Byte.byte,
    header "Access-Control-Allow-Origin" (stream (Some content) req) = Some "*".
Proof.
  split; [reflexivity|]. split; [reflexivity|].
  intros content. destruct req as [[range|]]; [|reflexivity].
  destruct range as [|c range]; [reflexivity|].
  destruct (get_cases content (String c range)) as [(a & b & _ & _ & H)|H];
    [discriminate | |]; unfold get in H; rewrite H; reflexivity.
Qed.

End ControllerFacts.

(** ** The client reconciler *)

Module ClientFacts.
Import JS Client NumberFacts.

Lemma Qc_ltb_lt (x y : Qc) : Qc_ltb x y = true <-> (x < y)%Qc.
Proof.
  unfold Qc_ltb. rewrite negb_true_iff. apply Qc_leb_gt.
Qed.

Lemma Math_abs_Fin (y : Qc) : Math_abs (Fin y) = Fin (Qcabs y).
Proof.
  unfold Math_abs. destruct (Qc_ltb y 0) eqn:E.
  - apply Qc_ltb_lt in E. now rewrite Qcabs_neg by now apply Qclt_le_weak.
  - rewrite Qcabs_pos; [reflexivity|].
    unfold Qc_ltb in E. rewrite negb_false_iff in E. now apply Qc_leb_le.
Qed.

Lemma Qcmin_max_self (t : Qc) : Qcmin t (Qcmax 0 t) = t.
Proof.
  unfold Qcmin, Qcmax. destruct (Qc_leb 0 t) eqn:E.
  - now destruct (Qc_leb t t).
  - destruct (Qc_leb t 0) eqn:E'; [reflexivity|].
    apply Qc_leb_gt in E, E'. exfalso. apply (Qclt_not_le _ _ E).
    now apply Qclt_le_weak.
Qed.

(** Where a seek to [t] lands in a video of duration [d]; a duration of zero
    means that it is not known yet. *)
Lemma clamp_to_duration (t d : Qc) :
  clamp (Fin t) zero (if truthy (Fin d) then Fin d else Fin t) =
  Fin (if Qc_eqb d 0 then t else Qcmin d (Qcmax 0 t)).
Proof.
  unfold clamp. rewrite Math_max_zero_Fin. cbn [truthy].
  destruct (Qc_eqb d 0); cbn [negb Math_min].
  - pose proof (Qcmin_max_self t) as H. unfold Qcmin in H.
    destruct (Qc_leb t (Qcmax 0 t)); congruence.
  - unfold Qcmin. now destruct (Qc_leb d (Qcmax 0 t)).
Qed.

(** The target of both paths, in rational arithmetic. *)
Lemma targetTime_Fin (playing : bool) (c : Qc) (serverTime : value) (nowMs : Z) :
  targetTime playing (Fin c) serverTime nowMs =
  Fin match serverTime with
      | VNum (Fin s) =>
          if playing
          then c + Qcmax 0 ((Q2Qc (inject_Z nowMs) - s) / Q2Qc (inject_Z 1000))
          else c
      | _ => c
      end.
Proof.
  unfold targetTime.
  destruct serverTime as [| | |[| | |s]| |], playing; cbn [andb isFiniteNumber Number_isFinite];
    try reflexivity.
  cbn [as_number]. unfold sub, div, of_Z. cbn [neg add].
  replace (Qc_eqb (Q2Qc (inject_Z 1000)) 0) with false by reflexivity.
  now rewrite Math_max_zero_Fin.
Qed.

(** What the shared steps do to a player with a video element: nothing is
    sent, and the position moves only for a forced seek. *)
Lemma applyTarget_effect (p : Player) (v : Video) (playing : bool) (t x d : Qc) :
  videoElementRef p = Some v -> v_currentTime v = Fin x -> durationRef p = Fin d ->
  snd (applyTarget p v playing (Fin t)) = [] /\
  position (fst (applyTarget p v playing (Fin t))) =
    Some (Fin (if negb (v_seeking v) && Qc_ltb (Q2Qc (1 # 10)) (Qcabs (t - x))
               then if Qc_eqb d 0 then t else Qcmin d (Qcmax 0 t)
               else x)).
Proof.
  intros Hv Hx Hd. destruct v as [pos paused seeking rejects].
  cbn [v_currentTime] in Hx. subst pos.
  assert (Hseek : seekTo p (Fin t) (Some false) =
            (set_video (mkVideo (Fin (if Qc_eqb d 0 then t else Qcmin d (Qcmax 0 t)))
                          paused seeking rejects) p, [])).
  { unfold seekTo. rewrite Hv, Hd, clamp_to_duration. reflexivity. }
  assert (Hlive : forall v', live p v' =
            mkVideo (Fin x) paused seeking rejects).
  { intros v'. unfold live. now rewrite Hv. }
  unfold applyTarget. rewrite !Hlive. cbn [v_seeking v_currentTime v_paused].
  unfold sub. cbn [neg add]. rewrite Math_abs_Fin.
  cbn [gt FORCE_SYNC_THRESHOLD_SECONDS]. fold (Qcminus t x).
  destruct (Qc_ltb (Q2Qc (1 # 10)) (Qcabs (t - x))), seeking; cbn [negb andb];
    rewrite ?Hseek; unfold live, play, pause, position;
    cbn [videoElementRef set_video]; rewrite ?Hv; cbn [v_paused];
    destruct playing, paused; cbn [negb andb];
    cbn [videoElementRef set_video]; rewrite ?Hv; cbn [playRejects v_paused];
    try destruct rejects; cbn [broadcast_of videoElementRef set_video fst snd app
                                v_currentTime v_paused negb andb];
    rewrite ?Hv; cbn [v_currentTime]; split; reflexivity.
Qed.


(** C6, the input on which it fails.  The record says: playing, at 59 s when
    the server clock read 0.  At local time 3000 the target is 62 s; the
    video is at 59.5 s and not seeking, so the drift is above the threshold.
    But the video lasts 60 s, and the forced seek leaves the position at
    60 s, not at the target. *)
Lemma forced_seek_stops_at_duration :
  targetTime true (of_Z 59) (VNum (of_Z 0)) 3000 = of_Z 62 /\
  position shortVideo = Some (Fin (Q2Qc (119 # 2))) /\
  gt (Math_abs (sub (of_Z 62) (Fin (Q2Qc (119 # 2))))) FORCE_SYNC_THRESHOLD_SECONDS
    = true /\
  position (fst (syncCheck shortVideo 3000)) = Some (of_Z 60) /\
  position (fst (syncCheck shortVideo 3000)) <> Some (of_Z 62) /\
  snd (syncCheck shortVideo 3000) = [].
Proof.
  split.
  { unfold of_Z. rewrite targetTime_Fin. apply f_equal, Qc_is_canon. reflexivity. }
  repeat split; try reflexivity.
  vm_compute. intros H. injection H as H. discriminate H.
Qed.

(** C6, amended.  With a video element present and the viewer not scrubbing,
    both the handler of an incoming snapshot and the periodic check (socket
    connected, record not older than twice the period) work from the target
    [currentTime + max(0, (now - serverTimeMs)/1000)] when the record is
    playing and its [serverTimeMs] is a finite number, and from [currentTime]
    otherwise.  If the video is not mid-seek and the target is more than 0.1 s
    away from the local position, the position becomes the target clamped to
    [0, duration], or the target itself while the duration is still zero;
    otherwise the position stays.  Nothing is sent to the server, whichever of
    seek, play and pause is applied. *)
Theorem reconcile_clamped_and_silent
    (p : Player) (v : Video) (playing : bool) (c x d : Qc)
    (serverTime : value) (nowMs : Z) :
  videoElementRef p = Some v -> isScrubbingRef p = false ->
  v_currentTime v = Fin x -> durationRef p = Fin d ->
  let target :=
    match serverTime with
    | VNum (Fin s) =>
        if playing
        then (c + Qcmax 0 ((Q2Qc (inject_Z nowMs) - s) / Q2Qc (inject_Z 1000)))%Qc
        else c
    | _ => c
    end in
  let landing := if Qc_eqb d 0%Qc then target else Qcmin d (Qcmax 0%Qc target) in
  let after :=
    Some (Fin (if negb (v_seeking v) && Qc_ltb (Q2Qc (1 # 10)) (Qcabs (target - x)%Qc)
               then landing else x)) in
  (forall recvMs : Z,
      let pushed := handleSyncState p (snapshot playing (Fin c) serverTime) recvMs nowMs in
      snd pushed = [] /\ position (fst pushed) = after) /\
  (forall (sock : Socket) (recvMs : Z),
      socketRef p = Some sock -> connected sock = true ->
      lastSyncStateRef p = Some (mkSyncRecord playing (Fin c) serverTime recvMs) ->
      nowMs - recvMs <= PLAYER_SYNC_CHECK_INTERVAL_MS * 2 ->
      let pulled := syncCheck p nowMs in
      snd pulled = [] /\ position (fst pulled) = after).
Proof.
  intros Hv Hs Hx Hd. cbv zeta. split.
  - intros recvMs. unfold handleSyncState, snapshot.
    cbn [has_field existsb String.eqb Ascii.eqb Bool.eqb fst snd orb negb andb
         get_field find isFiniteNumber Number_isFinite as_number].
    cbn [set_lastSyncState videoElementRef isScrubbingRef]. rewrite Hv, Hs.
    rewrite targetTime_Fin.
    apply applyTarget_effect; cbn; assumption.
  - intros sock recvMs Hsock Hconn Hrec Hfresh. unfold syncCheck.
    rewrite Hsock, Hv, Hconn, Hs, Hrec. cbn [negb receivedAtMs].
    replace (nowMs - recvMs >? PLAYER_SYNC_CHECK_INTERVAL_MS * 2) with false by lia.
    cbn [isPlaying currentTime serverTimeMs]. rewrite targetTime_Fin.
    now apply applyTarget_effect.
Qed.

Lemma reconcile_clamped_and_silent_witness :
  (snd (handleSyncState lagging (snapshot true (of_Z 10) (VNum (of_Z 0))) 2000 3000) = [] /\
   position (fst (handleSyncState lagging (snapshot true (of_Z 10) (VNum (of_Z 0))) 2000 3000))
     = Some (of_Z 13)) /\
  (snd (syncCheck lagging 3000) = [] /\
   position (fst (syncCheck lagging 3000)) = Some (of_Z 13)).
Proof.
  assert (E : ((if negb false &&
                  Qc_ltb (Q2Qc (1 # 10))
                    (Qcabs (Q2Qc (inject_Z 10) +
                            Qcmax 0 ((Q2Qc (inject_Z 3000) - Q2Qc (inject_Z 0))
                                     / Q2Qc (inject_Z 1000))
                            - Q2Qc (201 # 20)))
               then if Qc_eqb (Q2Qc (inject_Z 60)) 0
                    then Q2Qc (inject_Z 10) +
                         Qcmax 0 ((Q2Qc (inject_Z 3000) - Q2Qc (inject_Z 0))
                                  / Q2Qc (inject_Z 1000))
                    else Qcmin (Q2Qc (inject_Z 60))
                           (Qcmax 0 (Q2Qc (inject_Z 10) +
                              Qcmax 0 ((Q2Qc (inject_Z 3000) - Q2Qc (inject_Z 0))
                                       / Q2Qc (inject_Z 1000))))
               else Q2Qc (201 # 20)) = Q2Qc (inject_Z 13))%Qc).
  { apply Qc_is_canon. vm_compute. reflexivity. }
  destruct (reconcile_clamped_and_silent lagging
              (mkVideo (Fin (Q2Qc (201 # 20))) true false false)
              true (Q2Qc (inject_Z 10)) (Q2Qc (201 # 20)) (Q2Qc (inject_Z 60))
              (VNum (of_Z 0)) 3000 eq_refl eq_refl eq_refl eq_refl) as [Hpush Hpull].
  cbn [v_seeking] in Hpush, Hpull. unfold of_Z in Hpush, Hpull.
  rewrite E in Hpush, Hpull.
  split.
  - exact (Hpush 2000).
  - apply (Hpull (mkSocket true) 2000); [reflexivity..|]. vm_compute. discriminate.
Defined.

End ClientFacts.

(** ** More on the clock model and the handlers *)

Module GatewayMore.
Import JS Gateway Lifecycle Session NumberFacts GatewayFacts.

Lemma seconds_mono (a b : Z) : a <= b -> (seconds a <= seconds b)%Qc.
Proof.
  intros H. unfold seconds, Qcle. qc_to_q. unfold Qle. simpl. lia.
Qed.

Lemma seconds_nonneg (d : Z) : 0 <= d -> (0 <= seconds d)%Qc.
Proof.
  intros H. rewrite <- seconds_zero. now apply seconds_mono.
Qed.


Lemma Qcmax_zero_mono (a b : Qc) : (a <= b)%Qc -> (Qcmax 0 a <= Qcmax 0 b)%Qc.
Proof.
  intros H. unfold Qcmax.
  destruct (Qc_leb 0 a) eqn:Ea, (Qc_leb 0 b) eqn:Eb;
    rewrite ?Qc_leb_le, ?Qc_leb_gt in *.
  - exact H.
  - exfalso. apply (Qclt_not_le _ _ Eb). now apply Qcle_trans with a.
  - exact Eb.
  - apply Qcle_refl.
Qed.

Lemma Qcplus_nonneg (a b : Qc) : (0 <= a)%Qc -> (0 <= b)%Qc -> (0 <= a + b)%Qc.
Proof.
  intros Ha Hb. rewrite <- (Qcplus_0_l 0). now apply Qcplus_le_compat.
Qed.

(** X1.  The effective time never runs backwards: between two clock readings
    [n1 <= n2] it does not decrease, and for a paused session it does not
    move at all. *)
Theorem effectiveTime_monotone (st : StreamState) (n1 n2 : Z) :
  n1 <= n2 ->
  exists a b : Qc,
    getEffectiveTime st n1 = Fin a /\ getEffectiveTime st n2 = Fin b /\
    (a <= b)%Qc /\ (isPlaying st = false -> a = b).
Proof.
  intros H. destruct (baseTime_finite st) as [c Hc].
  rewrite !(getEffectiveTime_base st _ c Hc).
  destruct (isPlaying st); do 2 eexists; repeat split; try reflexivity.
  - apply Qcmax_zero_mono, Qcplus_le_compat; [apply Qcle_refl|].
    apply Qcmax_zero_mono, seconds_mono. lia.
  - discriminate.
  - apply Qcle_refl.
Qed.

Lemma effectiveTime_monotone_witness :
  exists a b : Qc,
    getEffectiveTime rolling 3000 = Fin a /\ getEffectiveTime rolling 4500 = Fin b /\
    (a <= b)%Qc /\ (isPlaying rolling = false -> a = b).
Proof.
  apply (effectiveTime_monotone rolling 3000 4500). lia.
Defined.


(** The effective time of a playing session with a valid checkpoint [c], at a
    clock reading not earlier than the checkpoint. *)
Lemma effectiveTime_playing_forward (st : StreamState) (n : Z) (c : Qc) :
  currentTime st = Fin c -> (0 <= c)%Qc -> isPlaying st = true ->
  updatedAtMs st <= n ->
  getEffectiveTime st n = Fin (c + seconds (n - updatedAtMs st)).
Proof.
  intros Hc Hpos Hp Hn.
  rewrite (getEffectiveTime_base st n c (baseTime_checkpoint st c Hc)), Hp.
  assert (Hs : (0 <= seconds (n - updatedAtMs st))%Qc) by (apply seconds_nonneg; lia).
  rewrite (Qcmax_zero_id (seconds _)) by assumption.
  now rewrite Qcmax_zero_id by now apply Qcplus_nonneg.
Qed.

Lemma effectiveTime_paused_fixed (st : StreamState) (n : Z) (c : Qc) :
  currentTime st = Fin c -> (0 <= c)%Qc -> isPlaying st = false ->
  getEffectiveTime st n = Fin c.
Proof.
  intros Hc Hpos Hp.
  rewrite (getEffectiveTime_base st n c (baseTime_checkpoint st c Hc)), Hp.
  now rewrite Qcmax_zero_id.
Qed.



(** X3.  Play, then pause without a time: a play with the finite payload [t]
    handled at [n1], followed by a pause whose payload is not a finite number
    handled at [n2 >= n1], leaves the session paused at
    [max(0, t) + (n2 - n1)/1000], and every later snapshot reports exactly
    that position. *)
Theorem play_then_bare_pause
    (g : StreamGateway) (t : Qc) (payload : value) (n1 b1 n2 b2 n3 : Z) :
  isFiniteNumber payload = false -> n1 <= n2 ->
  let g1 := fst (handlePlay g (VNum (Fin t)) n1 b1) in
  let g2 := fst (handlePause g1 payload n2 b2) in
  state g2 = mkStreamState false (Fin (Qcmax 0 t + seconds (n2 - n1))) n2 /\
  getSyncState (state g2) n3 =
    mkSyncState false (Fin (Qcmax 0 t + seconds (n2 - n1))) n3.
Proof.
  intros Hpayload Hn. cbv zeta.
  unfold handlePlay, handlePause. cbv zeta. rewrite !checkpoint_then_flag.
  cbn [fst state].
  assert (Hnonneg : (0 <= Qcmax 0 t + seconds (n2 - n1))%Qc).
  { apply Qcplus_nonneg; [apply Qcmax_zero_nonneg | apply seconds_nonneg; lia]. }
  assert (Hcommit :
    match payload with
    | VNum (Fin t') => Fin (Qcmax 0 t')
    | _ => getEffectiveTime (mkStreamState true (Fin (Qcmax 0 t)) n1) n2
    end = Fin (Qcmax 0 t + seconds (n2 - n1))).
  { transitivity (getEffectiveTime (mkStreamState true (Fin (Qcmax 0 t)) n1) n2).
    - destruct payload as [| | |[| | |t']| |]; try reflexivity. discriminate.
    - apply effectiveTime_playing_forward; cbn; try reflexivity; try assumption.
      apply Qcmax_zero_nonneg. }
  rewrite Hcommit. split; [reflexivity|].
  unfold getSyncState. cbn [isPlaying]. f_equal.
  now apply effectiveTime_paused_fixed.
Qed.

Lemma play_then_bare_pause_witness :
  let g1 := fst (handlePlay (newGateway (Some [1%nat; 2%nat]) 0)
                   (VNum (Fin (Q2Qc (5 # 2)))) 1000 1001) in
  let g2 := fst (handlePause g1 VUndefined 4000 4001) in
  state g2 = mkStreamState false (Fin (Qcmax 0 (Q2Qc (5 # 2)) + seconds (4000 - 1000))) 4000 /\
  getSyncState (state g2) 9000 =
    mkSyncState false (Fin (Qcmax 0 (Q2Qc (5 # 2)) + seconds (4000 - 1000))) 9000.
Proof.
  apply (play_then_bare_pause (newGateway (Some [1%nat; 2%nat]) 0)
           (Q2Qc (5 # 2)) VUndefined 1000 1001 4000 4001 9000);
    [reflexivity | lia].
Defined.

(** X4.  A seek moves the position and keeps the play flag: after a seek to
    the finite time [t] handled at [n], the snapshot taken at a reading
    [n' >= n] reports [max(0, t)] for a paused session and
    [max(0, t) + (n' - n)/1000] for a playing one. *)
Theorem seek_then_snapshot (g : StreamGateway) (t : Qc) (n b n' : Z) :
  n <= n' ->
  let g' := fst (handleSeek g (VNum (Fin t)) n b) in
  getSyncState (state g') n' =
    mkSyncState (isPlaying (state g))
      (Fin (if isPlaying (state g)
            then Qcmax 0 t + seconds (n' - n)
            else Qcmax 0 t))
      n'.
Proof.
  intros Hn. cbv zeta. unfold handleSeek.
  cbn [isFiniteNumber Number_isFinite negb as_number fst with_state state
       set_currentTime set_updatedAtMs isPlaying currentTime updatedAtMs].
  rewrite Math_max_zero_Fin. unfold getSyncState. cbn [isPlaying]. f_equal.
  destruct (isPlaying (state g)) eqn:Hp.
  - rewrite (effectiveTime_playing_forward _ n' (Qcmax 0 t));
      [reflexivity | reflexivity | apply Qcmax_zero_nonneg | exact Hp | exact Hn].
  - apply effectiveTime_paused_fixed;
      [reflexivity | apply Qcmax_zero_nonneg | exact Hp].
Qed.

Lemma seek_then_snapshot_witness :
  let g := mkGateway None rolling in
  let g' := fst (handleSeek g (VNum (Fin (Q2Qc (-3 # 1)))) 2000 2000) in
  getSyncState (state g') 2500 =
    mkSyncState (isPlaying (state g))
      (Fin (if isPlaying (state g)
            then Qcmax 0 (Q2Qc (-3 # 1)) + seconds (2500 - 2000)
            else Qcmax 0 (Q2Qc (-3 # 1))))
      2500.
Proof.
  apply (seek_then_snapshot (mkGateway None rolling) (Q2Qc (-3 # 1)) 2000 2000 2500).
  lia.
Defined.

(** X5.  Events that carry no command never touch the session: after any
    sequence of snapshot requests, timer ticks and seeks with a payload that
    is not a finite number, the gateway is what it was. *)
Theorem commandless_events_change_nothing (g : StreamGateway) (evs : list Event) :
  forallb carries_no_command evs = true -> run g evs = g.
Proof.
  induction evs as [|e evs IH]; intros H; [reflexivity|].
  cbn [forallb] in H. apply andb_prop in H as [He Hevs]. cbn [run].
  replace (fst (step g e)) with g; [now apply IH|].
  destruct e as [time n b|time n b|time n b|c n|n]; try discriminate He;
    try reflexivity.
  cbn [carries_no_command] in He. cbn [step]. unfold handleSeek. now rewrite He.
Qed.

Lemma commandless_events_change_nothing_witness :
  run (mkGateway (Some [7%nat]) rolling)
    [EvSync 7%nat 10; EvSeek (VNum NaN) 20 21; EvTick 30; EvSeek (VStr "5") 40 41]
  = mkGateway (Some [7%nat]) rolling.
Proof.
  apply (commandless_events_change_nothing (mkGateway (Some [7%nat]) rolling)).
  reflexivity.
Defined.


(** Whatever an event makes the gateway send is a [syncState] message whose
    payload is a snapshot of some state. *)
Lemma emissions_are_snapshots (g : StreamGateway) (e : Event) (m : Emission) :
  In m (snd (step g e)) ->
  em_event m = "syncState"%string /\
  exists st n, em_payload m = getSyncState st n.
Proof.
  assert (Hb : forall g' n, In m (broadcastSyncState g' n) ->
            em_event m = "syncState"%string /\
            exists st n, em_payload m = getSyncState st n).
  { intros g' n. unfold broadcastSyncState, server_emit.
    destruct (server g'); [|intros []].
    rewrite in_map_iff. intros (sock & <- & _). split; [reflexivity|]. cbn. eauto. }
  destruct e as [time n b|time n b|time n b|c n|n]; cbn [step].
  - unfold handlePlay. cbv zeta. cbn [snd]. apply Hb.
  - unfold handlePause. cbv zeta. cbn [snd]. apply Hb.
  - unfold handleSeek. destruct (negb (isFiniteNumber time)); [intros []|].
    cbv zeta. cbn [snd]. apply Hb.
  - unfold handleSync, client_emit. cbn [snd]. intros [<-|[]].
    split; [reflexivity|]. cbn. eauto.
  - cbn [snd]. apply Hb.
Qed.

Lemma seekTo_keeps_record (p : Client.Player) (t : number) (o : option bool) :
  Client.lastSyncStateRef (fst (Client.seekTo p t o)) = Client.lastSyncStateRef p.
Proof.
  unfold Client.seekTo. destruct (Client.videoElementRef p); [|reflexivity].
  cbv zeta. now destruct (Client.broadcast_of o).
Qed.

Lemma play_keeps_record (p : Client.Player) (o : option bool) :
  Client.lastSyncStateRef (fst (Client.play p o)) = Client.lastSyncStateRef p.
Proof.
  unfold Client.play. destruct (Client.videoElementRef p) as [v|]; [|reflexivity].
  destruct (Client.playRejects v); [reflexivity|].
  cbv zeta. now destruct (Client.broadcast_of o).
Qed.

Lemma pause_keeps_record (p : Client.Player) (o : option bool) :
  Client.lastSyncStateRef (fst (Client.pause p o)) = Client.lastSyncStateRef p.
Proof.
  unfold Client.pause. destruct (Client.videoElementRef p); [|reflexivity].
  cbv zeta. now destruct (Client.broadcast_of o).
Qed.

Lemma applyTarget_keeps_record
    (p : Client.Player) (v : Client.Video) (playing : bool) (t : number) :
  Client.lastSyncStateRef (fst (Client.applyTarget p v playing t)) =
  Client.lastSyncStateRef p.
Proof.
  unfold Client.applyTarget.
  set (r1 := if negb _ then _ else _).
  assert (H1 : Client.lastSyncStateRef (fst r1) = Client.lastSyncStateRef p).
  { subst r1. destruct (negb _); [|reflexivity].
    destruct (gt _ _); [apply seekTo_keeps_record | reflexivity]. }
  destruct r1 as [p1 out1]. cbn [fst] in H1.
  set (r2 := if playing && _ then _ else _).
  assert (H2 : Client.lastSyncStateRef (fst r2) = Client.lastSyncStateRef p1).
  { subst r2. destruct (playing && _); [apply play_keeps_record | reflexivity]. }
  destruct r2 as [p2 out2]. cbn [fst] in H2.
  set (r3 := if negb playing && _ then _ else _).
  assert (H3 : Client.lastSyncStateRef (fst r3) = Client.lastSyncStateRef p2).
  { subst r3. destruct (negb playing && _); [apply pause_keeps_record | reflexivity]. }
  destruct r3 as [p3 out3]. cbn [fst] in *. congruence.
Qed.

(** X6.  Server and client agree on the wire: every message that an event
    makes the gateway send is a [syncState] whose [currentTime] is finite and
    not negative, and a client that receives it (whatever its own state)
    passes it through the checks of [handleSyncState] and stores it as its
    last record. *)
Theorem emitted_snapshots_are_accepted
    (g : StreamGateway) (e : Event) (m : Emission)
    (p : Client.Player) (recvMs nowMs : Z) :
  In m (snd (step g e)) ->
  em_event m = "syncState"%string /\
  finite_nonneg (ss_currentTime (em_payload m)) /\
  Client.lastSyncStateRef
    (fst (Client.handleSyncState p (wire (em_payload m)) recvMs nowMs)) =
  Some (Client.mkSyncRecord (ss_isPlaying (em_payload m))
          (ss_currentTime (em_payload m))
          (VNum (of_Z (ss_serverTimeMs (em_payload m)))) recvMs).
Proof.
  intros Hin. destruct (emissions_are_snapshots g e m Hin) as (Hev & st & n & Hpl).
  split; [exact Hev|]. rewrite Hpl. cbn [getSyncState ss_currentTime ss_isPlaying
                                         ss_serverTimeMs].
  pose proof (getEffectiveTime_finite_nonneg st n) as Hfin.
  split; [exact Hfin|]. destruct Hfin as (q & Hq & _).
  unfold wire, Client.handleSyncState.
  cbn [getSyncState ss_currentTime ss_isPlaying ss_serverTimeMs].
  rewrite Hq.
  cbn [Client.has_field existsb String.eqb Ascii.eqb Bool.eqb fst snd orb negb andb
       Client.get_field find isFiniteNumber Number_isFinite as_number].
  cbn [Client.set_lastSyncState Client.videoElementRef Client.isScrubbingRef].
  destruct (Client.videoElementRef p) as [v|]; [|reflexivity].
  destruct (Client.isScrubbingRef p); [reflexivity|].
  now rewrite applyTarget_keeps_record.
Qed.

Lemma emitted_snapshots_are_accepted_witness :
  let m := mkEmission 4%nat "syncState" (getSyncState rolling 3000) in
  em_event m = "syncState"%string /\
  finite_nonneg (ss_currentTime (em_payload m)) /\
  Client.lastSyncStateRef
    (fst (Client.handleSyncState Client.lagging (wire (em_payload m)) 3005 3006)) =
  Some (Client.mkSyncRecord (ss_isPlaying (em_payload m))
          (ss_currentTime (em_payload m))
          (VNum (of_Z (ss_serverTimeMs (em_payload m)))) 3005).
Proof.
  apply (emitted_snapshots_are_accepted (mkGateway (Some [4%nat]) rolling)
           (EvTick 3000)).
  left. reflexivity.
Defined.

Lemma filter_fresh (h : nat) (l : list nat) :
  (forall h', In h' l -> (h' < h)%nat) ->
  filter (fun h' => negb (Nat.eqb h' h)) l = l.
Proof.
  induction l as [|a l IH]; intros H; [reflexivity|]. cbn [filter].
  assert (Ha : (a < h)%nat) by (apply H; now left).
  replace (Nat.eqb a h) with false by (symmetry; apply Nat.eqb_neq; lia).
  cbn [negb]. f_equal. apply IH. intros h' Hh'. apply H. now right.
Qed.

(** X7.  The broadcast timer does not outlive the gateway: after [afterInit]
    and then [onModuleDestroy] the handle of the gateway is cleared and the
    active timers are those that were there before; a second
    [onModuleDestroy] changes nothing. *)
Theorem init_then_destroy_leaves_no_timer (id0 : option nat) (ts : Timers) :
  well_formed ts ->
  let started := afterInit id0 ts in
  let stopped := onModuleDestroy (fst started) (snd started) in
  (exists h, fst started = Some h /\ In h (active (snd started))) /\
  fst stopped = None /\
  active (snd stopped) = active ts /\
  onModuleDestroy (fst stopped) (snd stopped) = stopped.
Proof.
  intros Hwf. cbv zeta. unfold afterInit, setInterval, onModuleDestroy, clearInterval.
  cbn [fst snd nextHandle active]. split; [|split; [|split]].
  - eexists. split; [reflexivity | now left].
  - reflexivity.
  - cbn [filter]. rewrite Nat.eqb_refl. cbn [negb]. now apply filter_fresh.
  - reflexivity.
Qed.

Lemma init_then_destroy_leaves_no_timer_witness :
  let ts := mkTimers 3 [2%nat; 0%nat] in
  let started := afterInit None ts in
  let stopped := onModuleDestroy (fst started) (snd started) in
  (exists h, fst started = Some h /\ In h (active (snd started))) /\
  fst stopped = None /\
  active (snd stopped) = active ts /\
  onModuleDestroy (fst stopped) (snd stopped) = stopped.
Proof.
  apply (init_then_destroy_leaves_no_timer None (mkTimers 3 [2%nat; 0%nat])).
  intros h [<-|[<-|[]]]; cbn; lia.
Defined.

End GatewayMore.

(** ** More on the media endpoint *)

Module ControllerMore.
Import Controller Text ControllerFacts.

Local Open Scope string_scope.
Local Open Scope Z_scope.

Lemma get_numeric_eq (content : list Byte.byte) (start end_ : Z) :
  0 <= start <= end_ -> end_ < stat_size content ->
  get content ("bytes=" ++ toString start ++ "-" ++ toString end_) =
  partialContent content start end_.
Proof.
  intros H1 H2.
  change ("bytes=" ++ toString start ++ "-" ++ toString end_)
    with (rangeHeader (toString start) (toString end_)).
  rewrite get_rangeHeader by (apply has_dash_toString; lia).
  unfold resolvedBounds. rewrite !parseInt_toString by lia.
  now apply checkedRange_valid.
Qed.


(** X9.  The handler never serves a range it should not: whenever the reply
    to a [Range] header is a 206, there are bounds [0 <= start <= end < size]
    of which the reply is the partial content; in particular its body is not
    empty and lies inside the file. *)
Theorem every_206_is_a_valid_range (content : list Byte.byte) (range : string) :
  status (get content range) = 206 ->
  exists start end_ : Z,
    0 <= start <= end_ /\ end_ < stat_size content /\
    is_partial_content content start end_ (get content range) /\
    body (get content range) <> [].
Proof.
  intros Hs. destruct range as [|c range]; [discriminate Hs|].
  destruct (get_cases content (String c range)) as [(a & b & H1 & H2 & H)|H];
    [discriminate | | rewrite H in Hs; discriminate Hs].
  exists a, b. rewrite H. repeat split; try assumption; try apply H1.
  - now apply readRange_length.
  - apply readRange_nth.
  - intros Hnil. pose proof (readRange_length content a b H1 H2) as Hlen.
    cbn [partialContent body] in Hnil. rewrite Hnil in Hlen. cbn in Hlen. lia.
Qed.

Lemma every_206_is_a_valid_range_witness :
  exists start end_ : Z,
    0 <= start <= end_ /\ end_ < stat_size thousand /\
    is_partial_content thousand start end_ (get thousand "bytes= 10 - 19 ") /\
    body (get thousand "bytes= 10 - 19 ") <> [].
Proof.
  apply (every_206_is_a_valid_range thousand "bytes= 10 - 19 "). reflexivity.
Defined.


(** X10.  A first field that is not a number is read as no first field: when
    the text before the first dash does not parse as an integer, the reply
    is the reply to the suffix form with the same second field
    ([bytes=abc-5] is answered like [bytes=-5]). *)
Theorem unparsable_start_is_suffix (content : list Byte.byte) (s e : string) :
  has_dash s = false -> parseInt (Some s) = None ->
  get content (rangeHeader s e) = get content (rangeHeader "" e).
Proof.
  intros Hs Hp. rewrite !get_open_field by (assumption || reflexivity).
  now rewrite Hp, parseInt_empty.
Qed.

Lemma unparsable_start_is_suffix_witness :
  get thousand (rangeHeader "abc" "5") = get thousand (rangeHeader "" "5").
Proof.
  apply (unparsable_start_is_suffix thousand "abc" "5"); reflexivity.
Defined.

Lemma readRange_to_end (content : list Byte.byte) (start : Z) :
  0 <= start ->
  readRange content start (stat_size content - 1) = skipn (Z.to_nat start) content.
Proof.
  intros H. unfold readRange, stat_size. apply firstn_all2.
  rewrite length_skipn. lia.
Qed.

(** X11.  The suffix form serves the tail of the file: for a file that is not
    empty and a length [n > 0], [bytes=-n] is answered by the 206 whose body
    is the file without its first [size - n] bytes; when [n] is the size of
    the file or more, the body is the whole file. *)
Theorem suffix_serves_the_tail (content : list Byte.byte) (n : Z) :
  0 < n -> content <> [] ->
  let r := get content ("bytes=-" ++ toString n) in
  status r = 206 /\
  body r = skipn (Z.to_nat (stat_size content - n)) content /\
  (stat_size content <= n -> body r = content).
Proof.
  intros Hn Hne. cbv zeta.
  assert (Hsize : 0 < stat_size content).
  { unfold stat_size. destruct content; [congruence | cbn; lia]. }
  change ("bytes=-" ++ toString n) with (rangeHeader "" (toString n)).
  rewrite get_rangeHeader by (reflexivity || apply has_dash_toString; lia).
  unfold resolvedBounds. rewrite parseInt_empty, parseInt_toString by lia.
  rewrite checkedRange_valid by lia.
  cbn [partialContent status body]. rewrite readRange_to_end by lia.
  split; [reflexivity|]. split.
  - f_equal. lia.
  - intros Hall. replace (Z.to_nat (Z.max (stat_size content - n) 0)) with 0%nat by lia.
    reflexivity.
Qed.

Lemma suffix_serves_the_tail_witness :
  let r := get thousand ("bytes=-" ++ toString 5000) in
  status r = 206 /\
  body r = skipn (Z.to_nat (stat_size thousand - 5000)) thousand /\
  (stat_size thousand <= 5000 -> body r = thousand).
Proof.
  apply (suffix_serves_the_tail thousand 5000); [lia | discriminate].
Defined.

(** X12.  A range with no dash at all is open-ended: when the text after
    [bytes=] has no dash and parses as an integer [start] inside the file,
    the missing second field counts as unparsable and the reply is the reply
    to [bytes=start-], the 206 from [start] to the last byte. *)
Theorem dashless_range_is_open_ended
    (content : list Byte.byte) (s : string) (start : Z) :
  has_dash s = false -> parseInt (Some s) = Some start ->
  0 <= start < stat_size content ->
  get content ("bytes=" ++ s) = get content (rangeHeader s "") /\
  is_partial_content content start (stat_size content - 1) (get content ("bytes=" ++ s)).
Proof.
  intros Hs Hp Hb.
  assert (H : get content ("bytes=" ++ s) =
              partialContent content start (stat_size content - 1)).
  { unfold get, stream. cbn [headers_range append].
    cbn [startsWith Ascii.eqb Bool.eqb andb negb]. cbv zeta.
    change (String "b" (String "y" (String "t" (String "e" (String "s" (String "=" s))))))
      with ("bytes=" ++ s).
    rewrite replace_bytes, split_no_dash by assumption.
    cbn [nth_error]. rewrite Hp.
    change (parseInt None) with (@None Z). apply checkedRange_valid; lia. }
  rewrite H. split.
  - rewrite get_open_field by assumption. rewrite Hp.
    change (parseInt (Some (first_field ""))) with (@None Z).
    symmetry. apply checkedRange_valid; lia.
  - apply partialContent_ok; lia.
Qed.

Lemma dashless_range_is_open_ended_witness :
  get thousand ("bytes=" ++ "990") = get thousand (rangeHeader "990" "") /\
  is_partial_content thousand 990 (stat_size thousand - 1)
    (get thousand ("bytes=" ++ "990")).
Proof.
  apply (dashless_range_is_open_ended thousand "990" 990);
    [reflexivity | reflexivity | vm_compute; intuition discriminate].
Defined.

(** X13.  An empty file has no satisfiable range: every [Range] header with a
    value that is not empty gets the 416 with [Content-Range: bytes */0]. *)
Theorem empty_file_refuses_every_range (range : string) :
  range <> "" ->
  get [] range = rangeNotSatisfiable 0 /\
  is_range_not_satisfiable 0 (get [] range).
Proof.
  intros Hne.
  destruct (get_cases [] range Hne) as [(a & b & H1 & H2 & _)|H].
  - cbn in H2. lia.
  - rewrite H. split; [reflexivity | apply rangeNotSatisfiable_ok].
Qed.

Lemma empty_file_refuses_every_range_witness :
  get [] "bytes=0-" = rangeNotSatisfiable 0 /\
  is_range_not_satisfiable 0 (get [] "bytes=0-").
Proof.
  apply (empty_file_refuses_every_range "bytes=0-"). discriminate.
Defined.

(** X14.  A suffix of length zero is refused: when the first field is not a
    number and the second one parses as [0], the reply is the 416, whatever
    the file. *)
Theorem zero_suffix_is_refused (content : list Byte.byte) (s e : string) :
  has_dash s = false -> parseInt (Some s) = None ->
  parseInt (Some (first_field e)) = Some 0 ->
  get content (rangeHeader s e) = rangeNotSatisfiable (stat_size content).
Proof.
  intros Hs Hp He. rewrite get_open_field, Hp, He by assumption.
  apply checkedRange_invalid. lia.
Qed.

Lemma zero_suffix_is_refused_witness :
  get thousand (rangeHeader "" "0") = rangeNotSatisfiable (stat_size thousand).
Proof.
  apply (zero_suffix_is_refused thousand "" "0"); reflexivity.
Defined.

Lemma firstn_plus {A : Type} (n m : nat) (l : list A) :
  firstn (n + m) l = (firstn n l ++ firstn m (skipn n l))%list.
Proof.
  revert l. induction n as [|n IH]; intros l; [reflexivity|].
  destruct l as [|a l]; cbn [Nat.add firstn skipn app].
  - now rewrite firstn_nil.
  - now rewrite IH.
Qed.

Lemma readRange_adjacent (content : list Byte.byte) (a b c : Z) :
  0 <= a <= b -> b < c ->
  (readRange content a b ++ readRange content (b + 1) c)%list = readRange content a c.
Proof.
  intros H1 H2. unfold readRange.
  replace (Z.to_nat (c - a + 1)) with (Z.to_nat (b - a + 1) + Z.to_nat (c - (b + 1) + 1))%nat by lia.
  rewrite firstn_plus, skipn_skipn. do 3 f_equal. lia.
Qed.

(** X15.  Consecutive ranges reassemble the file: for [0 <= a <= b < c < size]
    the body served for [bytes=a-b] followed by the body served for
    [bytes=(b+1)-c] is the body served for [bytes=a-c]; and [bytes=0-(size-1)]
    serves the very bytes of the reply without a [Range] header. *)
Theorem adjacent_ranges_concatenate (content : list Byte.byte) (a b c : Z) :
  0 <= a <= b -> b < c -> c < stat_size content ->
  (body (get content ("bytes=" ++ toString a ++ "-" ++ toString b)) ++
   body (get content ("bytes=" ++ toString (b + 1) ++ "-" ++ toString c)))%list =
  body (get content ("bytes=" ++ toString a ++ "-" ++ toString c)) /\
  body (get content ("bytes=" ++ toString 0 ++ "-" ++ toString (stat_size content - 1))) =
  body (stream (Some content) (mkRequest None)).
Proof.
  intros H1 H2 H3. rewrite !get_numeric_eq by lia.
  cbn [partialContent body stream headers_range readAll]. split.
  - now apply readRange_adjacent.
  - rewrite readRange_to_end by lia. reflexivity.
Qed.

Lemma adjacent_ranges_concatenate_witness :
  (body (get thousand ("bytes=" ++ toString 10 ++ "-" ++ toString 99)) ++
   body (get thousand ("bytes=" ++ toString (99 + 1) ++ "-" ++ toString 499)))%list =
  body (get thousand ("bytes=" ++ toString 10 ++ "-" ++ toString 499)) /\
  body (get thousand ("bytes=" ++ toString 0 ++ "-" ++ toString (stat_size thousand - 1))) =
  body (stream (Some thousand) (mkRequest None)).
Proof.
  apply (adjacent_ranges_concatenate thousand 10 99 499); vm_compute;
    intuition discriminate.
Defined.


(** *** The string functions on their own *)

Lemma digits_acc_junk (u : Decimal.uint) (junk : string) (acc : option Z) :
  no_digit_ahead junk = true ->
  digits_acc (NilEmpty.string_of_uint u ++ junk) acc =
  digits_acc (NilEmpty.string_of_uint u) acc.
Proof.
  intros Hj. revert acc.
  induction u; intros acc; cbn [NilEmpty.string_of_uint append digits_acc];
    try (match goal with
         | |- context [digit_of ?c] =>
             let d := eval vm_compute in (digit_of c) in
             change (digit_of c) with d
         end; cbv iota; apply IHu).
  destruct junk as [|c r]; [reflexivity|]. cbn [no_digit_ahead] in Hj.
  cbn [digits_acc]. now destruct (digit_of c).
Qed.

Lemma trimStart_whitespace (ws rest : string) :
  all_whitespace ws = true -> trimStart (ws ++ rest) = trimStart rest.
Proof.
  induction ws as [|c ws IH]; intros H; [reflexivity|].
  cbn [all_whitespace] in H. apply andb_prop in H as [Hc Hws].
  cbn [append trimStart]. rewrite Hc. now apply IH.
Qed.

Lemma uint_head (u : Decimal.uint) :
  u <> Decimal.Nil ->
  exists c r, NilEmpty.string_of_uint u = String c r /\
              isWhiteSpace c = false /\ Ascii.eqb c "-" = false /\
              Ascii.eqb c "+" = false.
Proof.
  intros Hu. destruct u; [congruence | ..]; do 2 eexists; repeat split.
Qed.

Lemma parseInt_uint_padded (u : Decimal.uint) (ws junk : string) :
  u <> Decimal.Nil -> all_whitespace ws = true -> no_digit_ahead junk = true ->
  parseInt (Some (ws ++ NilEmpty.string_of_uint u ++ junk)) =
    Some (Z.of_N (Pos.of_uint u)) /\
  parseInt (Some (ws ++ "-" ++ NilEmpty.string_of_uint u ++ junk)) =
    Some (- Z.of_N (Pos.of_uint u)).
Proof.
  intros Hu Hws Hj. unfold parseInt.
  pose proof (digits_acc_start u Hu) as Hd.
  rewrite <- (digits_acc_junk u junk None Hj) in Hd.
  destruct (uint_head u Hu) as (c & r & E & Hw & Hm & Hp). split.
  - rewrite trimStart_whitespace by assumption.
    rewrite E in *. cbn [append trimStart]. rewrite Hw, Hm, Hp.
    cbn [append] in Hd. rewrite Hd. f_equal; lia.
  - rewrite trimStart_whitespace by assumption.
    cbn [append trimStart]. change (isWhiteSpace "-") with false. cbv iota.
    cbn [Ascii.eqb Bool.eqb]. cbv iota. rewrite Hd. f_equal; lia.
Qed.



(** X17.  [split] loses nothing: joining the fields again with the separator
    gives the string back; there is always at least one field, and no field
    contains the separator. *)
Theorem split_then_join (s : string) (sep : ascii) :
  String.concat (String sep "") (split s sep) = s /\
  split s sep <> [] /\
  forall f, In f (split s sep) ->
    forall c, In c (list_ascii_of_string f) -> c <> sep.
Proof.
  split; [|split].
  - induction s as [|c r IH]; [reflexivity|]. cbn [split].
    destruct (Ascii.eqb c sep) eqn:Hc.
    + apply Ascii.eqb_eq in Hc. subst c.
      pose proof (split_nonempty r sep) as Hne.
      destruct (split r sep) as [|h t]; [congruence|].
      change (String.concat (String sep "") ("" :: h :: t))
        with (String sep (String.concat (String sep "") (h :: t))).
      now rewrite IH.
    + pose proof (split_nonempty r sep) as Hne.
      destruct (split r sep) as [|h t]; [congruence|].
      rewrite <- IH. destruct t; reflexivity.
  - apply split_nonempty.
  - induction s as [|c r IH]; cbn [split].
    + intros f [<-|[]] c' [].
    + destruct (Ascii.eqb c sep) eqn:Hc.
      * intros f [<-|Hf]; [intros c' [] | now apply IH].
      * pose proof (split_nonempty r sep) as Hne.
        destruct (split r sep) as [|h t]; [congruence|].
        intros f [<-|Hf].
        -- intros c' [<-|Hc']; [now apply Ascii.eqb_neq|].
           apply (IH h); [now left | assumption].
        -- apply IH. now right.
Qed.

Lemma split_then_join_witness :
  String.concat "-" (split "a-b-" "-") = "a-b-" /\
  split "a-b-" "-" <> [] /\
  forall c, In c (list_ascii_of_string "b") -> c <> "-"%char.
Proof.
  destruct (split_then_join "a-b-" "-") as (H1 & H2 & H3).
  split; [exact H1|]. split; [exact H2|].
  apply (H3 "b"). right. left. reflexivity.
Defined.

Lemma startsWith_drop (s pat : string) :
  startsWith s pat = true -> pat ++ drop (String.length pat) s = s.
Proof.
  revert s. induction pat as [|a pat IH]; intros s H; [reflexivity|].
  destruct s as [|b s]; [discriminate H|]. cbn [startsWith] in H.
  apply andb_prop in H as [Hab H]. apply Ascii.eqb_eq in Hab. subst b.
  cbn [String.length drop append]. now rewrite IH.
Qed.

(** X18.  [replace] on a string that starts with the pattern takes away that
    one occurrence and nothing else: putting the pattern back in front of
    [replace s pat ""] gives [s] again. *)
Theorem replace_strips_the_prefix (s pat : string) :
  startsWith s pat = true -> pat ++ replace s pat "" = s.
Proof.
  intros H. assert (E : replace s pat "" = drop (String.length pat) s).
  { destruct s; cbn [replace]; now rewrite H. }
  rewrite E. now apply startsWith_drop.
Qed.

Lemma replace_strips_the_prefix_witness :
  "bytes=" ++ replace "bytes=bytes=1-2" "bytes=" "" = "bytes=bytes=1-2".
Proof.
  apply (replace_strips_the_prefix "bytes=bytes=1-2" "bytes="). reflexivity.
Defined.

Lemma first_field_app (s r : string) :
  has_dash s = false -> first_field (s ++ r) = s ++ first_field r.
Proof.
  induction s as [|c s IH]; intros H; [reflexivity|].
  cbn [has_dash] in H. apply orb_false_elim in H as [Hc Hs].
  cbn [append first_field]. now rewrite Hc, IH.
Qed.

Lemma first_field_no_dash (s : string) : has_dash s = false -> first_field s = s.
Proof.
  induction s as [|c s IH]; intros H; [reflexivity|].
  cbn [has_dash] in H. apply orb_false_elim in H as [Hc Hs].
  cbn [first_field]. now rewrite Hc, IH.
Qed.

Lemma no_digit_ahead_first_field (r : string) :
  no_digit_ahead r = true -> no_digit_ahead (first_field r) = true.
Proof.
  destruct r as [|c r]; [reflexivity|]. cbn [first_field no_digit_ahead].
  destruct (Ascii.eqb c "-"); [reflexivity|]. cbn [no_digit_ahead]. auto.
Qed.

(** X29.  Text after the second numeral is not read: for [0 <= start] and
    [0 <= end], the header [bytes=start-end] followed by any text that does
    not go on with a digit gets the reply to [bytes=start-end] itself.  So of
    a request for several ranges, [bytes=0-1,5-6], only the first one is
    served. *)
Theorem text_after_the_range_is_ignored
    (content : list Byte.byte) (start end_ : Z) (junk : string) :
  0 <= start -> 0 <= end_ -> no_digit_ahead junk = true ->
  get content ("bytes=" ++ toString start ++ "-" ++ toString end_ ++ junk) =
  get content ("bytes=" ++ toString start ++ "-" ++ toString end_).
Proof.
  intros Hs He Hj.
  change ("bytes=" ++ toString start ++ "-" ++ toString end_ ++ junk)
    with (rangeHeader (toString start) (toString end_ ++ junk)).
  change ("bytes=" ++ toString start ++ "-" ++ toString end_)
    with (rangeHeader (toString start) (toString end_)).
  rewrite !get_open_field by (apply has_dash_toString; lia).
  assert (E1 : parseInt (Some (first_field (toString end_ ++ junk))) = Some end_).
  { rewrite first_field_app by (apply has_dash_toString; lia).
    destruct (toString_nonneg end_ He) as (u & Hu & -> & <-).
    apply (parseInt_uint_padded u "" (first_field junk) Hu eq_refl).
    now apply no_digit_ahead_first_field. }
  assert (E2 : parseInt (Some (first_field (toString end_))) = Some end_).
  { rewrite first_field_no_dash by (apply has_dash_toString; lia).
    now apply parseInt_toString. }
  now rewrite E1, E2.
Qed.

Lemma text_after_the_range_is_ignored_witness :
  get thousand ("bytes=" ++ toString 0 ++ "-" ++ toString 1 ++ ",5-6") =
  get thousand ("bytes=" ++ toString 0 ++ "-" ++ toString 1).
Proof.
  apply (text_after_the_range_is_ignored thousand 0 1 ",5-6"); [lia | lia | reflexivity].
Defined.

End ControllerMore.

(** ** More on the client *)

Module ClientMore.
Import JS Client Controls NumberFacts ClientFacts.

Lemma set_video_same (p : Player) (v : Video) :
  videoElementRef p = Some v -> set_video v p = p.
Proof.
  intros H. destruct p. cbn in H. subst. reflexivity.
Qed.

(** The shared steps in closed form: the player they leave behind. *)
Lemma applyTarget_full (p : Player) (playing paused seeking rejects : bool)
    (t x d : Qc) :
  videoElementRef p = Some (mkVideo (Fin x) paused seeking rejects) ->
  durationRef p = Fin d ->
  applyTarget p (mkVideo (Fin x) paused seeking rejects) playing (Fin t) =
  (set_video
     (mkVideo
        (Fin (if negb seeking && Qc_ltb (Q2Qc (1 # 10)) (Qcabs (t - x))
              then if Qc_eqb d 0 then t else Qcmin d (Qcmax 0 t)
              else x))
        (if playing then paused && rejects else true)
        seeking rejects) p,
   []).
Proof.
  intros Hv Hd.
  assert (Hseek : seekTo p (Fin t) (Some false) =
            (set_video (mkVideo (Fin (if Qc_eqb d 0 then t else Qcmin d (Qcmax 0 t)))
                          paused seeking rejects) p, [])).
  { unfold seekTo. rewrite Hv, Hd, clamp_to_duration. reflexivity. }
  assert (Hlive : forall v', live p v' = mkVideo (Fin x) paused seeking rejects).
  { intros v'. unfold live. now rewrite Hv. }
  pose proof (set_video_same p _ Hv) as Hsame.
  unfold applyTarget. rewrite !Hlive. cbn [v_seeking v_currentTime v_paused].
  unfold sub. cbn [neg add]. rewrite Math_abs_Fin.
  cbn [gt FORCE_SYNC_THRESHOLD_SECONDS]. fold (Qcminus t x).
  destruct (Qc_ltb (Q2Qc (1 # 10)) (Qcabs (t - x))), seeking; cbn [negb andb];
    rewrite ?Hseek; unfold live, play, pause;
    cbn [videoElementRef set_video]; rewrite ?Hv; cbn [v_paused];
    destruct playing, paused; cbn [negb andb];
    cbn [videoElementRef set_video]; rewrite ?Hv; cbn [playRejects v_paused];
    try destruct rejects; cbn [broadcast_of videoElementRef set_video fst snd app
                                v_currentTime v_paused v_seeking playRejects
                                socketRef lastSyncStateRef isScrubbingRef durationRef
                                negb andb];
    rewrite ?Hsame; reflexivity.
Qed.


(** X19.  [clamp] keeps a finite value between finite bounds [lo <= hi], and
    gives back a value that already lies between them. *)
Theorem clamp_within_bounds (v lo hi : Qc) :
  (lo <= hi)%Qc ->
  exists r : Qc,
    clamp (Fin v) (Fin lo) (Fin hi) = Fin r /\ (lo <= r)%Qc /\ (r <= hi)%Qc /\
    ((lo <= v)%Qc -> (v <= hi)%Qc -> r = v).
Proof.
  intros H. unfold clamp, Math_max, Math_min.
  destruct (Qc_leb lo v) eqn:E1.
  - destruct (Qc_leb hi v) eqn:E2; rewrite ?Qc_leb_le, ?Qc_leb_gt in *.
    + exists hi. repeat split; try assumption; [apply Qcle_refl|].
      intros _ Hv. now apply Qcle_antisym.
    + exists v. repeat split; try assumption. now apply Qclt_le_weak.
  - destruct (Qc_leb hi lo) eqn:E2; rewrite ?Qc_leb_le, ?Qc_leb_gt in *.
    + exists hi. repeat split; try assumption; [apply Qcle_refl|].
      intros Hv _. exfalso. now apply (Qclt_not_le _ _ E1).
    + exists lo. repeat split; try assumption; [apply Qcle_refl|].
      intros Hv _. exfalso. now apply (Qclt_not_le _ _ E1).
Qed.

Lemma clamp_within_bounds_witness :
  exists r : Qc,
    clamp (Fin (Q2Qc (3 # 2))) (Fin 0%Qc) (Fin 1%Qc) = Fin r /\
    (0 <= r)%Qc /\ (r <= 1)%Qc /\
    ((0 <= Q2Qc (3 # 2))%Qc -> (Q2Qc (3 # 2) <= 1)%Qc -> r = Q2Qc (3 # 2)).
Proof.
  apply (clamp_within_bounds (Q2Qc (3 # 2)) 0%Qc 1%Qc). discriminate.
Defined.

(** X20.  A viewer's own seek and the session agree: with a socket, a video
    element and a known duration [d > 0], [seekTo(t)] (broadcast by default)
    moves the element to a time [c] with [0 <= c <= d], sends exactly one
    [seek] with that same [c], and the gateway that handles this message
    stores [c] unchanged as its checkpoint. *)
Theorem own_seek_reaches_session_unchanged
    (p : Player) (v : Video) (sock : Socket) (t d : Qc) :
  videoElementRef p = Some v -> socketRef p = Some sock ->
  durationRef p = Fin d -> (0 < d)%Qc ->
  exists c : Qc,
    (0 <= c)%Qc /\ (c <= d)%Qc /\
    snd (seekTo p (Fin t) None) = [EmitSeek (Fin c)] /\
    position (fst (seekTo p (Fin t) None)) = Some (Fin c) /\
    forall (g : Gateway.StreamGateway) (n b : Z),
      Gateway.currentTime (Gateway.state (fst (Gateway.handleSeek g (VNum (Fin c)) n b)))
      = Fin c.
Proof.
  intros Hv Hs Hd Hpos.
  assert (Hnz : Qc_eqb d 0 = false).
  { unfold Qc_eqb. apply not_true_iff_false. intros E.
    apply Qeq_bool_iff in E. apply Qc_is_canon in E. subst d.
    now apply (Qclt_not_le _ _ Hpos), Qcle_refl. }
  destruct (clamp_within_bounds t 0%Qc d (Qclt_le_weak _ _ Hpos))
    as (c & Hc & H0 & H1 & _).
  exists c. split; [assumption|]. split; [assumption|].
  unfold seekTo. rewrite Hv, Hd. cbn [truthy]. rewrite Hnz. cbn [negb].
  change zero with (Fin 0%Qc). rewrite Hc.
  cbn [broadcast_of fst snd]. unfold socket_emit, position.
  cbn [socketRef set_video videoElementRef v_currentTime]. rewrite Hs.
  repeat split.
  intros g n b. unfold Gateway.handleSeek.
  cbn [isFiniteNumber Number_isFinite negb as_number fst Gateway.with_state
       Gateway.state Gateway.set_currentTime Gateway.set_updatedAtMs
       Gateway.currentTime].
  now rewrite Math_max_zero_Fin, Qcmax_zero_id.
Qed.

Lemma own_seek_reaches_session_unchanged_witness :
  exists c : Qc,
    (0 <= c)%Qc /\ (c <= Q2Qc (inject_Z 60))%Qc /\
    snd (seekTo waiting (Fin (Q2Qc (inject_Z 75))) None) = [EmitSeek (Fin c)] /\
    position (fst (seekTo waiting (Fin (Q2Qc (inject_Z 75))) None)) = Some (Fin c) /\
    forall (g : Gateway.StreamGateway) (n b : Z),
      Gateway.currentTime (Gateway.state (fst (Gateway.handleSeek g (VNum (Fin c)) n b)))
      = Fin c.
Proof.
  apply (own_seek_reaches_session_unchanged waiting
           (mkVideo (of_Z 10) false false false) (mkSocket true)
           (Q2Qc (inject_Z 75)) (Q2Qc (inject_Z 60)));
    reflexivity.
Defined.

(** X21.  A malformed [syncState] payload is dropped: unless the payload is an
    object whose [isPlaying] is a boolean and whose [currentTime] is a finite
    number, [handleSyncState] leaves the player as it is (the last record
    included) and sends nothing. *)
Theorem malformed_snapshot_is_dropped
    (p : Player) (state : value) (recvMs nowMs : Z) :
  ~ (exists fields b c,
        state = VObj fields /\
        get_field fields "isPlaying" = VBool b /\
        get_field fields "currentTime" = VNum (Fin c)) ->
  handleSyncState p state recvMs nowMs = (p, []).
Proof.
  intros Hbad. unfold handleSyncState.
  destruct state as [| | | | |fields]; try reflexivity.
  destruct (negb (has_field fields "isPlaying") ||
            negb (has_field fields "currentTime")); [reflexivity|].
  destruct (get_field fields "isPlaying") as [| |b| | |] eqn:Hb; try reflexivity.
  destruct (get_field fields "currentTime") as [| | |[| | |c]| |] eqn:Hc;
    try reflexivity.
  exfalso. apply Hbad. now exists fields, b, c.
Qed.

Lemma malformed_snapshot_is_dropped_witness :
  handleSyncState lagging
    (VObj [("isPlaying"%string, VBool true); ("currentTime"%string, VStr "12")])
    5 6 = (lagging, []).
Proof.
  apply malformed_snapshot_is_dropped.
  intros (fields & b & c & E & _ & Hc). injection E as <-. discriminate Hc.
Defined.

(** X22.  While the viewer scrubs, nothing corrects the player: the periodic
    check does nothing at all, and an incoming snapshot, whatever it holds,
    leaves the video element untouched and sends nothing (it may only
    replace the stored record). *)
Theorem scrubbing_suspends_corrections
    (p : Player) (state : value) (recvMs nowMs : Z) :
  isScrubbingRef p = true ->
  syncCheck p nowMs = (p, []) /\
  snd (handleSyncState p state recvMs nowMs) = [] /\
  videoElementRef (fst (handleSyncState p state recvMs nowMs)) = videoElementRef p.
Proof.
  intros Hs. split.
  - unfold syncCheck. destruct (socketRef p) as [sock|]; [|reflexivity].
    destruct (videoElementRef p); [|reflexivity].
    rewrite Hs. now destruct (negb (connected sock)).
  - unfold handleSyncState.
    destruct state as [| | | | |fields]; try (split; reflexivity).
    destruct (negb (has_field fields "isPlaying") ||
              negb (has_field fields "currentTime")); [split; reflexivity|].
    destruct (get_field fields "isPlaying"); try (split; reflexivity).
    destruct (negb (isFiniteNumber (get_field fields "currentTime")));
      [split; reflexivity|].
    cbn [set_lastSyncState videoElementRef isScrubbingRef]. rewrite Hs.
    destruct (videoElementRef p) eqn:Hv; split; cbn; (reflexivity || exact Hv).
Qed.

Lemma scrubbing_suspends_corrections_witness :
  syncCheck scrubbing 2000 = (scrubbing, []) /\
  snd (handleSyncState scrubbing (snapshot true (of_Z 50) (VNum (of_Z 0))) 1500 2000) = [] /\
  videoElementRef
    (fst (handleSyncState scrubbing (snapshot true (of_Z 50) (VNum (of_Z 0))) 1500 2000))
  = videoElementRef scrubbing.
Proof.
  apply (scrubbing_suspends_corrections scrubbing). reflexivity.
Defined.

(** X23.  The periodic check asks before it corrects: with a connected
    socket, a video element and no scrubbing, a player that has no record
    yet, or whose record was received more than twice the period ago, sends
    exactly one [sync] request and is left as it is. *)
Theorem stale_record_requests_sync
    (p : Player) (sock : Socket) (v : Video) (nowMs : Z) :
  socketRef p = Some sock -> connected sock = true ->
  videoElementRef p = Some v -> isScrubbingRef p = false ->
  match lastSyncStateRef p with
  | None => True
  | Some r => 2 * PLAYER_SYNC_CHECK_INTERVAL_MS < nowMs - receivedAtMs r
  end ->
  syncCheck p nowMs = (p, [EmitSync]).
Proof.
  intros Hs Hc Hv Hscr Hstale. unfold syncCheck. rewrite Hs, Hv, Hc, Hscr.
  cbn [negb]. destruct (lastSyncStateRef p) as [r|]; [|reflexivity].
  replace (nowMs - receivedAtMs r >? PLAYER_SYNC_CHECK_INTERVAL_MS * 2) with true by lia.
  reflexivity.
Qed.

Lemma stale_record_requests_sync_witness :
  syncCheck waiting 5001 = (waiting, [EmitSync]).
Proof.
  apply (stale_record_requests_sync waiting (mkSocket true)
           (mkVideo (of_Z 10) false false false) 5001);
    reflexivity.
Defined.


(** The periodic check when it gets as far as the shared steps. *)
Lemma syncCheck_reconciles
    (p : Player) (sock : Socket) (r : SyncRecord) (nowMs : Z)
    (paused seeking rejects : bool) (x d c : Qc) :
  socketRef p = Some sock -> connected sock = true ->
  videoElementRef p = Some (mkVideo (Fin x) paused seeking rejects) ->
  isScrubbingRef p = false -> durationRef p = Fin d ->
  lastSyncStateRef p = Some r -> currentTime r = Fin c ->
  nowMs - receivedAtMs r <= PLAYER_SYNC_CHECK_INTERVAL_MS * 2 ->
  exists t : Qc,
    targetTime (isPlaying r) (currentTime r) (serverTimeMs r) nowMs = Fin t /\
    syncCheck p nowMs =
    (set_video
       (mkVideo
          (Fin (if negb seeking && Qc_ltb (Q2Qc (1 # 10)) (Qcabs (t - x))
                then if Qc_eqb d 0 then t else Qcmin d (Qcmax 0 t)
                else x))
          (if isPlaying r then paused && rejects else true)
          seeking rejects) p,
     []).
Proof.
  intros Hs Hc Hv Hscr Hd Hr Hct Hfresh.
  rewrite Hct, targetTime_Fin. eexists. split; [reflexivity|].
  unfold syncCheck. rewrite Hs, Hv, Hc, Hscr, Hr. cbn [negb].
  replace (nowMs - receivedAtMs r >? PLAYER_SYNC_CHECK_INTERVAL_MS * 2) with false by lia.
  rewrite Hct, targetTime_Fin. now apply applyTarget_full.
Qed.

(** X24.  The periodic check brings the element to the play state of the
    session: with a connected socket, a video element, no scrubbing and a
    record that is not stale, the element is paused afterwards when the
    record says paused, and playing when the record says playing, unless the
    browser rejects [play()], in which case a paused element stays paused. *)
Theorem reconcile_aligns_play_state
    (p : Player) (sock : Socket) (v : Video) (r : SyncRecord) (nowMs : Z) :
  finite_refs p ->
  socketRef p = Some sock -> connected sock = true ->
  videoElementRef p = Some v -> isScrubbingRef p = false ->
  lastSyncStateRef p = Some r ->
  nowMs - receivedAtMs r <= PLAYER_SYNC_CHECK_INTERVAL_MS * 2 ->
  exists v',
    videoElementRef (fst (syncCheck p nowMs)) = Some v' /\
    v_paused v' = (if isPlaying r then v_paused v && playRejects v else true).
Proof.
  intros (Hfv & (d & Hd) & Hfr) Hs Hc Hv Hscr Hr Hfresh.
  destruct (Hfv v Hv) as [x Hx]. destruct (Hfr r Hr) as [c Hct].
  destruct v as [pos paused seeking rejects]. cbn in Hx. subst pos.
  destruct (syncCheck_reconciles p sock r nowMs paused seeking rejects x d c)
    as (t & _ & ->); try assumption.
  eexists. split; reflexivity.
Qed.

Lemma reconcile_aligns_play_state_witness :
  exists v',
    videoElementRef (fst (syncCheck lagging 3000)) = Some v' /\
    v_paused v' = (if true then true && false else true).
Proof.
  apply (reconcile_aligns_play_state lagging (mkSocket true)
           (mkVideo (Fin (Q2Qc (201 # 20))) true false false)
           (mkSyncRecord true (of_Z 10) (VNum (of_Z 0)) 2000) 3000);
    try reflexivity.
  - repeat split.
    + intros v E. injection E as <-. eexists. reflexivity.
    + eexists. reflexivity.
    + intros r E. injection E as <-. eexists. reflexivity.
  - vm_compute. discriminate.
Defined.

(** X25.  Reconciling twice is reconciling once: run again at the same clock
    reading on the player it has just left, the periodic check sends the same
    messages and leaves that player as it is. *)
Theorem reconcile_is_idempotent (p : Player) (nowMs : Z) :
  finite_refs p ->
  syncCheck (fst (syncCheck p nowMs)) nowMs = syncCheck p nowMs.
Proof.
  intros (Hfv & (d & Hd) & Hfr).
  destruct (socketRef p) as [sock|] eqn:Hs;
    [|unfold syncCheck; rewrite Hs; cbn [fst]; now rewrite Hs].
  destruct (videoElementRef p) as [v|] eqn:Hv;
    [|unfold syncCheck; rewrite Hs, Hv; cbn [fst]; now rewrite Hs, Hv].
  destruct (connected sock) eqn:Hc;
    [|unfold syncCheck; rewrite Hs, Hv, Hc; cbn [fst negb]; now rewrite Hs, Hv, Hc].
  destruct (isScrubbingRef p) eqn:Hscr;
    [unfold syncCheck; rewrite Hs, Hv, Hc, Hscr; cbn [fst negb];
     now rewrite Hs, Hv, Hc, Hscr|].
  destruct (lastSyncStateRef p) as [r|] eqn:Hr;
    [|unfold syncCheck; rewrite Hs, Hv, Hc, Hscr, Hr; cbn [fst negb];
      now rewrite Hs, Hv, Hc, Hscr, Hr].
  destruct (Z_le_dec (nowMs - receivedAtMs r) (PLAYER_SYNC_CHECK_INTERVAL_MS * 2))
    as [Hfresh|Hstale].
  - destruct (Hfv v eq_refl) as [x Hx]. destruct (Hfr r eq_refl) as [c Hct].
    clear Hfv Hfr.
    destruct v as [pos paused seeking rejects]. cbn in Hx. subst pos.
    destruct (syncCheck_reconciles p sock r nowMs paused seeking rejects x d c)
      as (t & Ht & E); try assumption.
    rewrite E. cbn [fst].
    set (landing := if Qc_eqb d 0 then t else Qcmin d (Qcmax 0 t)) in *.
    set (pos1 := if negb seeking && Qc_ltb (Q2Qc (1 # 10)) (Qcabs (t - x))
                 then landing else x) in *.
    set (paused1 := if isPlaying r then paused && rejects else true) in *.
    destruct (syncCheck_reconciles (set_video (mkVideo (Fin pos1) paused1 seeking rejects) p)
                sock r nowMs paused1 seeking rejects pos1 d c)
      as (t' & Ht' & E'); try assumption; try reflexivity.
    rewrite Ht in Ht'. injection Ht' as <-. rewrite E'.
    fold landing.
    assert (Hpos : (if negb seeking && Qc_ltb (Q2Qc (1 # 10)) (Qcabs (t - pos1))
                    then landing else pos1) = pos1).
    { subst pos1. destruct seeking; cbn [negb andb]; [reflexivity|].
      destruct (Qc_ltb (Q2Qc (1 # 10)) (Qcabs (t - x))) eqn:Hfar.
      - now destruct (Qc_ltb (Q2Qc (1 # 10)) (Qcabs (t - landing))).
      - now rewrite Hfar. }
    assert (Hpaused : (if isPlaying r then paused1 && rejects else true) = paused1).
    { subst paused1. destruct (isPlaying r), paused, rejects; reflexivity. }
    rewrite Hpos, Hpaused. reflexivity.
  - assert (E : syncCheck p nowMs = (p, [EmitSync])).
    { unfold syncCheck. rewrite Hs, Hv, Hc, Hscr, Hr. cbn [negb].
      replace (nowMs - receivedAtMs r >? PLAYER_SYNC_CHECK_INTERVAL_MS * 2)
        with true by lia.
      reflexivity. }
    rewrite E. cbn [fst]. exact E.
Qed.

Lemma reconcile_is_idempotent_witness :
  syncCheck (fst (syncCheck shortVideo 3000)) 3000 = syncCheck shortVideo 3000.
Proof.
  apply (reconcile_is_idempotent shortVideo 3000). repeat split.
  - intros v E. injection E as <-. eexists. reflexivity.
  - eexists. reflexivity.
  - intros r E. injection E as <-. eexists. reflexivity.
Defined.

(** X26.  Toggling twice comes back: on a player with a socket and a video
    element whose [play()] is not rejected, two calls of [togglePlay] leave
    the player as it was and send one [play] and one [pause], each with the
    position of the element, in the order in which they happened. *)
Theorem togglePlay_twice (p : Player) (v : Video) (sock : Socket) :
  videoElementRef p = Some v -> socketRef p = Some sock ->
  playRejects v = false ->
  let first := togglePlay p None in
  let second := togglePlay (fst first) None in
  fst second = p /\
  (snd first ++ snd second)%list =
    if v_paused v
    then [EmitPlay (v_currentTime v); EmitPause (v_currentTime v)]
    else [EmitPause (v_currentTime v); EmitPlay (v_currentTime v)].
Proof.
  intros Hv Hs Hrej. cbv zeta. destruct p as [so vi la sc du].
  cbn in Hv, Hs. subst so vi. destruct v as [pos paused seeking rejects].
  cbn in Hrej. subst rejects.
  destruct paused; split; reflexivity.
Qed.

Lemma togglePlay_twice_witness :
  let first := togglePlay waiting None in
  let second := togglePlay (fst first) None in
  fst second = waiting /\
  (snd first ++ snd second)%list = [EmitPause (of_Z 10); EmitPlay (of_Z 10)].
Proof.
  apply (togglePlay_twice waiting (mkVideo (of_Z 10) false false false)
           (mkSocket true)); reflexivity.
Defined.

End ClientMore.

(** ** The clock on the screen and the address of the video *)

Module DisplayFacts.
Import JS Display NumberFacts.

Local Open Scope string_scope.
Local Open Scope Z_scope.











Lemma formatTime_is_the_clock_example :
  formatTime (Fin (Q2Qc (7325 # 2))) = "1:01:02" /\
  formatTime (Fin (Q2Qc (599 # 10))) = "0:59" /\
  formatTime (Fin (Q2Qc (-1 # 2))) = "0:00" /\
  formatTime PosInf = "0:00".
Proof. repeat split. Qed.

Lemma trim_fixed (t : string) :
  ends_with_slash t = false -> trimTrailingSlashes t = t.
Proof.
  induction t as [|c r IH]; [reflexivity|]. cbn [ends_with_slash trimTrailingSlashes].
  destruct r as [|a r'].
  - intros ->. reflexivity.
  - intros H. rewrite (IH H). reflexivity.
Qed.

Lemma trim_no_slash (s : string) : ends_with_slash (trimTrailingSlashes s) = false.
Proof.
  induction s as [|c r IH]; [reflexivity|]. cbn [trimTrailingSlashes].
  destruct (trimTrailingSlashes r) as [|a r'].
  - destruct (Ascii.eqb c "/") eqn:E; [reflexivity | exact E].
  - exact IH.
Qed.

Lemma trim_one_more (s : string) :
  trimTrailingSlashes (s ++ "/") = trimTrailingSlashes s.
Proof.
  induction s as [|c r IH]; [reflexivity|].
  cbn [append trimTrailingSlashes]. now rewrite IH.
Qed.

Lemma trim_decompose (s : string) :
  exists k : nat, s = trimTrailingSlashes s ++ fill "/" k.
Proof.
  induction s as [|c r [k IH]]; [now exists 0%nat|]. cbn [trimTrailingSlashes].
  destruct (trimTrailingSlashes r) as [|a r'].
  - cbn [append] in IH. destruct (Ascii.eqb_spec c "/") as [->|].
    + exists (S k). cbn. now rewrite <- IH.
    + exists k. cbn. now rewrite <- IH.
  - exists k. cbn [append] in *. now rewrite <- IH.
Qed.

(** X28.  The address of the video does not depend on slashes at the end of
    the backend address: [trimTrailingSlashes] takes away exactly the slashes
    the string ends with (the input is the result followed by slashes only,
    and the result does not end with a slash), doing it twice changes
    nothing more, and [videoSrc] is the same with one more slash at the
    end. *)
Theorem trailing_slashes_do_not_matter (s : string) :
  (exists k : nat, s = trimTrailingSlashes s ++ fill "/" k) /\
  ends_with_slash (trimTrailingSlashes s) = false /\
  trimTrailingSlashes (trimTrailingSlashes s) = trimTrailingSlashes s /\
  videoSrc (s ++ "/") = videoSrc s.
Proof.
  split; [apply trim_decompose|]. split; [apply trim_no_slash|]. split.
  - apply trim_fixed, trim_no_slash.
  - unfold videoSrc. now rewrite trim_one_more.
Qed.

End DisplayFacts.
